(** * node-pendaq: the PenDAq session, its sample decoder and the device registry

    A shallow embedding of [src/pendaq.js] (class [PenDaq]) and of
    [src/index.js] (the registry of attached devices).

    Modelling conventions.
    - JavaScript numbers that hold integers are [Z]; a [Buffer] is a list of
      bytes; array indices are [nat].
    - An [EventEmitter] is observed through the chronological [trace] of a
      session: an [emit] that returns appends the event.  Listeners are the
      user's: they are not run by the model and are taken to return.  Whether
      the session has an ['error'] listener is part of its world, since
      [emit('error', e)] raises [e] when there is none; a new session has
      none.
    - Callbacks handed to the program are data: a caller's function is named,
      and each anonymous closure of the source is a constructor.
    - The USB stack is an interface ([Transport]) that decides, from the
      history, whether a call raises and whether an asynchronous request
      completes with an error.
    - Asynchronous completions and [process.nextTick] callbacks are queued in
      the world and run one per turn of the event [loop]. *)

From Stdlib Require Import ZArith Lia Strings.Byte String Ascii.
From stdpp Require Import base list strings pretty.

(* ================================================================== *)
(** ** Values *)

Inductive Err : Type :=
| Error (message : string)
| TypeError (message : string)
| RangeError (message : string)
| UsbError (errno : Z).

(** [new Error("The device must be opened before")] *)
Definition NotOpen : Err := Error "The device must be opened before".
(** [new Error("Device not connected")] *)
Definition NotConnected : Err := Error "Device not connected".
(** [new Error("Checksum code does not match the calculated code")] *)
Definition ChecksumMismatch : Err :=
  Error "Checksum code does not match the calculated code".

Definition Buffer : Type := list byte.
Definition byte_val (b : byte) : Z := Z.of_N (Byte.to_N b).

(** The array [[an1, an2, an3, an4]] passed with a ['data'] event. *)
Definition Sample : Type := list Z.

Record Descriptor : Type := { idVendor : Z; idProduct : Z }.

Record UsbDevice : Type := {
  deviceDescriptor : option Descriptor;
  busNumber : Z;
  deviceAddress : Z
}.

Definition IFACE_CTL : Z := 0.
Definition IFACE_DATA : Z := 1.
Definition ENDPOINT_CTL : Z := 0x81.
Definition ENDPOINT_DATA_IN : Z := 0x82.
Definition ENDPOINT_DATA_OUT : Z := 0x02.

(** The fields of a [PenDaq] object ([this._device], [this._isOpen], ...).
    An interface or endpoint handle is the number it was obtained with. *)
Record PenDaq : Type := {
  _device : UsbDevice;
  _isOpen : bool;
  _isRunning : bool;
  _isConnected : bool;
  _iface_ctl : option Z;
  _iface_data : option Z;
  _endpoint_ctl : option Z;
  _endpoint_dataIn : option Z;
  _endpoint_dataOut : option Z
}.

(** The [cb] argument of a public method: anything, or a function. *)
Inductive UserCb : Type :=
| NotAFunction
| Fn (name : string).

(** What [stop] can receive as [cb]: the caller's value, or the closure
    [function(err) { if (!callbackError(err, cb, err, self)) self.close(cb) }]
    that [close] builds around its own [cb]. *)
Inductive Callback : Type :=
| Caller (f : UserCb)
| CloseRetry (f : UserCb).

Inductive Event : Type :=
| EvOpen
| EvClose
| EvStart
| EvStop
| EvDisconnected
| EvRawData (data : Buffer)
| EvData (sample : Sample)
| EvError (arg : option Err).

Inductive UsbCall : Type :=
| DeviceOpen
| DeviceInterface (n : Z)
| IsKernelDriverActive (iface : Z)
| DetachKernelDriver (iface : Z)
| AttachKernelDriver (iface : Z)
| IfaceEndpoint (iface : Z) (addr : Z)
| IfaceClaim (iface : Z)
| EndpointOn (addr : Z) (evt : string)
| StartPoll (addr : Z)
| ControlTransfer (bmRequestType bRequest wValue wIndex : Z) (data : Buffer)
| IfaceRelease (iface : Z) (closeEndpoints : bool)
| DeviceClose.

(** The anonymous completion callbacks of the source, by the request that
    carries them. *)
Inductive Cont : Type :=
| StartDone (cb : UserCb)
| StopDone (cb : Callback)
| ReleaseDataDone (cb : UserCb)
| ReleaseCtlDone (cb : UserCb).

Inductive Action : Type :=
| Usb (c : UsbCall)
| Completed (c : UsbCall) (err : option Err)
| Emit (e : Event)
| Invoke (name : string) (arg : option Err).

(** The USB stack as the session sees it. *)
Class Transport : Type := {
  (** the call raises a JavaScript exception *)
  throws : list Action -> UsbCall -> option Err;
  (** the asynchronous request completes with this [err] *)
  fails : list Action -> UsbCall -> option Err;
  (** answer of [isKernelDriverActive()] *)
  kernelDriverActive : list Action -> bool;
  (** [process.platform == 'linux'] *)
  linux : bool
}.

Arguments throws : simpl never.
Arguments fails : simpl never.
Arguments kernelDriverActive : simpl never.
Arguments linux : simpl never.

(* ================================================================== *)
(** ** The world of one session and its monad *)

Record World : Type := {
  self : PenDaq;
  trace : list Action;
  ticks : list (Callback * option Err);
  inflight : list (UsbCall * Cont);
  (** [self.listenerCount('error') > 0] *)
  errorListener : bool
}.

Inductive Outcome (A : Type) : Type :=
| Ret (a : A)
| Throw (e : Err)
| Uncaught (e : Err)
| OutOfFuel.
Arguments Ret {A} a.
Arguments Throw {A} e.
Arguments Uncaught {A} e.
Arguments OutOfFuel {A}.

Definition M (A : Type) : Type := World -> Outcome A * World.

Definition ret {A} (a : A) : M A := fun w => (Ret a, w).

Definition bind {A B} (m : M A) (k : A -> M B) : M B := fun w =>
  match m w with
  | (Ret a, w') => k a w'
  | (Throw e, w') => (Throw e, w')
  | (Uncaught e, w') => (Uncaught e, w')
  | (OutOfFuel, w') => (OutOfFuel, w')
  end.

Declare Scope js_scope.
Delimit Scope js_scope with js.
Notation "x <- m ;; k" := (bind m (fun x => k))
  (at level 100, m at next level, k at level 200, right associativity)
  : js_scope.
Notation "m ;; k" := (bind m (fun _ => k))
  (at level 100, k at level 200, right associativity) : js_scope.
Open Scope js_scope.

Definition throw {A} (e : Err) : M A := fun w => (Throw e, w).
Definition out_of_fuel {A} : M A := fun w => (OutOfFuel, w).

(** [try { m } catch (err) { h err }] *)
Definition try_catch {A} (m : M A) (h : Err -> M A) : M A := fun w =>
  match m w with
  | (Throw e, w') => h e w'
  | r => r
  end.

(** A completion runs from the event loop: nothing catches what it raises. *)
Definition detached {A} (m : M A) : M A := fun w =>
  match m w with
  | (Throw e, w') => (Uncaught e, w')
  | r => r
  end.

Definition this : M PenDaq := fun w => (Ret (self w), w).

Definition modify (f : PenDaq -> PenDaq) : M unit := fun w =>
  (Ret tt, {| self := f (self w); trace := trace w;
              ticks := ticks w; inflight := inflight w;
              errorListener := errorListener w |}).

Definition log (a : Action) : M unit := fun w =>
  (Ret tt, {| self := self w; trace := trace w ++ [a];
              ticks := ticks w; inflight := inflight w;
              errorListener := errorListener w |}).

(** What [emit('error', arg)] raises on an emitter without an ['error']
    listener: [arg] itself when it is an [Error], else an [Error] that says
    so, in words that differ between Node releases.  Every [Err] is an
    [Error] object; [None] is [undefined], which the program itself never
    passes. *)
Definition unhandled (arg : option Err) : Err :=
  match arg with
  | Some e => e
  | None => Error "Unhandled error. (undefined)"
  end.

(** [self.emit(evt, ...)]: the listeners of [evt] are called, if any; an
    ['error'] event that nobody listens to is raised instead. *)
Definition emit (e : Event) : M unit := fun w =>
  match e with
  | EvError arg =>
      if errorListener w then log (Emit e) w else (Throw (unhandled arg), w)
  | _ => log (Emit e) w
  end.

(** [self.on('error', listener)], inherited from [EventEmitter]. *)
Definition on_error : M unit := fun w =>
  (Ret tt, {| self := self w; trace := trace w;
              ticks := ticks w; inflight := inflight w;
              errorListener := true |}).

(** [self.removeAllListeners('error')], inherited from [EventEmitter]. *)
Definition removeAllListeners_error : M unit := fun w =>
  (Ret tt, {| self := self w; trace := trace w;
              ticks := ticks w; inflight := inflight w;
              errorListener := false |}).

(** [process.nextTick(cb, arg)] *)
Definition nextTick (cb : Callback) (arg : option Err) : M unit := fun w =>
  (Ret tt, {| self := self w; trace := trace w;
              ticks := ticks w ++ [(cb, arg)]; inflight := inflight w;
              errorListener := errorListener w |}).

Definition truthy (v : option Err) : bool :=
  match v with Some _ => true | None => false end.

Definition is_function (f : UserCb) : bool :=
  match f with Fn _ => true | NotAFunction => false end.

Definition callable (cb : Callback) : bool :=
  match cb with Caller f => is_function f | CloseRetry _ => true end.

(* ================================================================== *)
(** ** The sample decoder: [PenDaq.prototype._onRawData] *)

(** [data.readUInt8(offset)] and [data.readUInt16LE(offset)]: a read past
    the end raises a [RangeError]; its message is the one of the Node
    releases of the time and differs in later ones. *)
Definition readUInt8 (data : Buffer) (offset : nat) : M Z :=
  match data !! offset with
  | Some b => ret (byte_val b)
  | None => throw (RangeError "Index out of range")
  end.

Definition readUInt16LE (data : Buffer) (offset : nat) : M Z :=
  match data !! offset, data !! (offset + 1) with
  | Some lo, Some hi => ret (byte_val lo + 256 * byte_val hi)%Z
  | _, _ => throw (RangeError "Index out of range")
  end.

(** The body of the [for] loop, from index [i]; returns the next index. *)
Definition parse_record (data : Buffer) (i : nat) : M nat :=
  an1 <- readUInt16LE data i ;;
  let i := i + 2 in
  an2 <- readUInt16LE data i ;;
  let i := i + 2 in
  an3 <- readUInt16LE data i ;;
  let i := i + 2 in
  an4 <- readUInt16LE data i ;;
  let i := i + 2 in
  chksum <- readUInt8 data i ;;
  let i := i + 1 in
  (if (Z.land (an1 + an2 + an3 + an4) 0xFF =? chksum)%Z
   then emit (EvData [an1; an2; an3; an4])
   else emit (EvError (Some ChecksumMismatch))) ;;
  ret i.

(** [for (i = 0; i < data.length;) { if (i + 9 > data.length) break; ... }] *)
Fixpoint parse_from (fuel : nat) (data : Buffer) (i : nat) : M unit :=
  match fuel with
  | O => out_of_fuel
  | S fuel' =>
      if negb (i <? length data) then ret tt
      else if length data <? i + 9 then ret tt
      else i' <- parse_record data i ;; parse_from fuel' data i'
  end.

Definition _onRawData (data : Buffer) : M unit :=
  parse_from (S (length data)) data 0.

(** The same method in the earlier revision of the file (the top-level
    [pendaq.js]): the loop has no [break] on a short tail. *)
Fixpoint onRawData_from (fuel : nat) (data : Buffer) (i : nat) : M unit :=
  match fuel with
  | O => out_of_fuel
  | S fuel' =>
      if negb (i <? length data) then ret tt
      else i' <- parse_record data i ;; onRawData_from fuel' data i'
  end.

Definition onRawData (data : Buffer) : M unit :=
  onRawData_from (S (length data)) data 0.

(* ================================================================== *)
(** ** The session: [open], [close], [start], [stop] *)

Definition set_isOpen (b : bool) (p : PenDaq) : PenDaq :=
  {| _device := _device p; _isOpen := b; _isRunning := _isRunning p;
     _isConnected := _isConnected p;
     _iface_ctl := _iface_ctl p; _iface_data := _iface_data p;
     _endpoint_ctl := _endpoint_ctl p; _endpoint_dataIn := _endpoint_dataIn p;
     _endpoint_dataOut := _endpoint_dataOut p |}.

Definition set_isRunning (b : bool) (p : PenDaq) : PenDaq :=
  {| _device := _device p; _isOpen := _isOpen p; _isRunning := b;
     _isConnected := _isConnected p;
     _iface_ctl := _iface_ctl p; _iface_data := _iface_data p;
     _endpoint_ctl := _endpoint_ctl p; _endpoint_dataIn := _endpoint_dataIn p;
     _endpoint_dataOut := _endpoint_dataOut p |}.

Definition set_isConnected (b : bool) (p : PenDaq) : PenDaq :=
  {| _device := _device p; _isOpen := _isOpen p; _isRunning := _isRunning p;
     _isConnected := b;
     _iface_ctl := _iface_ctl p; _iface_data := _iface_data p;
     _endpoint_ctl := _endpoint_ctl p; _endpoint_dataIn := _endpoint_dataIn p;
     _endpoint_dataOut := _endpoint_dataOut p |}.

Definition set_iface_ctl (h : option Z) (p : PenDaq) : PenDaq :=
  {| _device := _device p; _isOpen := _isOpen p; _isRunning := _isRunning p;
     _isConnected := _isConnected p;
     _iface_ctl := h; _iface_data := _iface_data p;
     _endpoint_ctl := _endpoint_ctl p; _endpoint_dataIn := _endpoint_dataIn p;
     _endpoint_dataOut := _endpoint_dataOut p |}.

Definition set_iface_data (h : option Z) (p : PenDaq) : PenDaq :=
  {| _device := _device p; _isOpen := _isOpen p; _isRunning := _isRunning p;
     _isConnected := _isConnected p;
     _iface_ctl := _iface_ctl p; _iface_data := h;
     _endpoint_ctl := _endpoint_ctl p; _endpoint_dataIn := _endpoint_dataIn p;
     _endpoint_dataOut := _endpoint_dataOut p |}.

Definition set_endpoint_ctl (h : option Z) (p : PenDaq) : PenDaq :=
  {| _device := _device p; _isOpen := _isOpen p; _isRunning := _isRunning p;
     _isConnected := _isConnected p;
     _iface_ctl := _iface_ctl p; _iface_data := _iface_data p;
     _endpoint_ctl := h; _endpoint_dataIn := _endpoint_dataIn p;
     _endpoint_dataOut := _endpoint_dataOut p |}.

Definition set_endpoint_dataIn (h : option Z) (p : PenDaq) : PenDaq :=
  {| _device := _device p; _isOpen := _isOpen p; _isRunning := _isRunning p;
     _isConnected := _isConnected p;
     _iface_ctl := _iface_ctl p; _iface_data := _iface_data p;
     _endpoint_ctl := _endpoint_ctl p; _endpoint_dataIn := h;
     _endpoint_dataOut := _endpoint_dataOut p |}.

Definition set_endpoint_dataOut (h : option Z) (p : PenDaq) : PenDaq :=
  {| _device := _device p; _isOpen := _isOpen p; _isRunning := _isRunning p;
     _isConnected := _isConnected p;
     _iface_ctl := _iface_ctl p; _iface_data := _iface_data p;
     _endpoint_ctl := _endpoint_ctl p; _endpoint_dataIn := _endpoint_dataIn p;
     _endpoint_dataOut := h |}.

(** [function PenDaq(device)]; the [TypeError] guard is in [new_PenDaq]. *)
Definition PenDaq_init (device : UsbDevice) : PenDaq :=
  {| _device := device; _isOpen := false; _isRunning := false;
     _isConnected := true;
     _iface_ctl := None; _iface_data := None;
     _endpoint_ctl := None; _endpoint_dataIn := None;
     _endpoint_dataOut := None |}.

Definition fresh (p : PenDaq) : World :=
  {| self := p; trace := []; ticks := []; inflight := [];
     errorListener := false |}.

(** [new PenDaq(device)] *)
Definition new_PenDaq (device : option UsbDevice) : Err + World :=
  match device with
  | None => inl (TypeError "Expected a usb device")
  | Some d =>
      match deviceDescriptor d with
      | None => inl (TypeError "Expected a usb device")
      | Some _ => inr (fresh (PenDaq_init d))
      end
  end.

(** Calling a caller's function: the call is recorded. *)
Definition call_user (f : UserCb) (arg : option Err) : M unit :=
  match f with
  | Fn name => log (Invoke name arg)
  | NotAFunction => ret tt
  end.

(** [function emitOnce(evt, f, self)]: [f], when a function, is added with
    [once] and so is called last, without argument, by the [emit] that
    follows.  [call] is how a value of the callback type [F] is called. *)
Definition emitOnce_with {F} (is_fn : F -> bool)
    (call : F -> option Err -> M unit) (evt : Event) (f : F) : M unit :=
  emit evt ;;
  if is_fn f then call f None else ret tt.

Definition emitOnce (evt : Event) (f : UserCb) : M unit :=
  emitOnce_with is_function call_user evt f.

(** [function callbackError(test, cb, arg, self)]; [self] tells whether the
    fourth argument was passed. *)
Definition callbackError (test : bool) (cb : Callback) (arg : option Err)
    (with_self : bool) : M bool :=
  if test then
    (if callable cb then nextTick cb arg else ret tt) ;;
    (if with_self then emit (EvError arg) else ret tt) ;;
    ret true
  else ret false.

(** [this._onDisconnect] *)
Definition _onDisconnect : M unit :=
  modify (set_isConnected false) ;;
  emit EvDisconnected.

(** The ['data'] listener that [open] installs on the data-in endpoint. *)
Definition incomingData (data : Buffer) : M unit :=
  emit (EvRawData data) ;;
  _onRawData data.

(** The ['error'] listeners that [open] installs on the three endpoints:
    [this.emit.bind(this, 'error')]. *)
Definition endpointError (err : option Err) : M unit :=
  emit (EvError err).

Section Session.
Context {T : Transport}.

(** A synchronous call into the USB stack. *)
Definition usb (c : UsbCall) : M unit := fun w =>
  let w' := {| self := self w; trace := trace w ++ [Usb c];
               ticks := ticks w; inflight := inflight w;
               errorListener := errorListener w |} in
  match throws (trace w) c with
  | Some e => (Throw e, w')
  | None => (Ret tt, w')
  end.

(** [iface.isKernelDriverActive()] *)
Definition isKernelDriverActive (iface : Z) : M bool :=
  usb (IsKernelDriverActive iface) ;;
  fun w => (Ret (kernelDriverActive (trace w)), w).

(** A call that takes a completion callback: the request is issued now and
    its callback is run by a later turn of the loop. *)
Definition request (c : UsbCall) (k : Cont) : M unit :=
  usb c ;;
  fun w => (Ret tt, {| self := self w; trace := trace w;
                       ticks := ticks w;
                       inflight := inflight w ++ [(c, k)];
                       errorListener := errorListener w |}).

(** [PenDaq.prototype.open] *)
Definition open (cb : UserCb) : M unit :=
  p <- this ;;
  if _isOpen p || negb (_isConnected p) then ret tt
  else
    try_catch
      (usb DeviceOpen ;;
       usb (DeviceInterface IFACE_CTL) ;;
       modify (set_iface_ctl (Some IFACE_CTL)) ;;
       usb (DeviceInterface IFACE_DATA) ;;
       modify (set_iface_data (Some IFACE_DATA)) ;;
       (if linux then
          active <- isKernelDriverActive IFACE_CTL ;;
          if active then usb (DetachKernelDriver IFACE_CTL) else ret tt
        else ret tt) ;;
       usb (IfaceEndpoint IFACE_CTL ENDPOINT_CTL) ;;
       modify (set_endpoint_ctl (Some ENDPOINT_CTL)) ;;
       usb (IfaceEndpoint IFACE_DATA ENDPOINT_DATA_IN) ;;
       modify (set_endpoint_dataIn (Some ENDPOINT_DATA_IN)) ;;
       usb (IfaceEndpoint IFACE_DATA ENDPOINT_DATA_OUT) ;;
       modify (set_endpoint_dataOut (Some ENDPOINT_DATA_OUT)) ;;
       usb (IfaceClaim IFACE_CTL) ;;
       usb (IfaceClaim IFACE_DATA) ;;
       usb (EndpointOn ENDPOINT_CTL "error") ;;
       usb (EndpointOn ENDPOINT_DATA_IN "error") ;;
       usb (EndpointOn ENDPOINT_DATA_OUT "error") ;;
       usb (EndpointOn ENDPOINT_DATA_IN "data") ;;
       usb (StartPoll ENDPOINT_DATA_IN) ;;
       modify (set_isOpen true) ;;
       emitOnce EvOpen cb)
      (fun err =>
         callbackError true (Caller cb) (Some err) true ;; ret tt).

(** [PenDaq.prototype.start] *)
Definition start (cb : UserCb) : M unit :=
  p <- this ;;
  notOpen <- callbackError (negb (_isOpen p)) (Caller cb) (Some NotOpen)
               false ;;
  if notOpen then ret tt
  else
    p <- this ;;
    notConn <- callbackError (negb (_isConnected p)) (Caller cb)
                 (Some NotConnected) false ;;
    if notConn then ret tt
    else request (ControlTransfer 0x21 0x22 3 0 []) (StartDone cb).

(** [PenDaq.prototype.stop] *)
Definition stop (cb : Callback) : M unit :=
  p <- this ;;
  notOpen <- callbackError (negb (_isOpen p)) cb (Some NotOpen) false ;;
  if notOpen then ret tt
  else
    p <- this ;;
    notConn <- callbackError (negb (_isConnected p)) cb
                 (Some NotConnected) false ;;
    if notConn then ret tt
    else request (ControlTransfer 0x21 0x22 0 0 []) (StopDone cb).

(** [PenDaq.prototype.close] *)
Definition close (cb : UserCb) : M unit :=
  p <- this ;;
  if negb (_isOpen p) || negb (_isConnected p) then emitOnce EvClose cb
  else if _isRunning p then stop (CloseRetry cb)
  else
    try_catch
      (request (IfaceRelease IFACE_DATA true) (ReleaseDataDone cb))
      (fun err => emit (EvError (Some err))).

(** Calling a value of type [Callback] with [arg]. *)
Definition invoke (cb : Callback) (arg : option Err) : M unit :=
  match cb with
  | Caller f => call_user f arg
  | CloseRetry f =>
      failed <- callbackError (truthy arg) (Caller f) arg true ;;
      if failed then ret tt else close f
  end.

(** The completion callbacks, called with the [err] of the request. *)
Definition complete (k : Cont) (err : option Err) : M unit :=
  match k with
  | StartDone cb =>
      failed <- callbackError (truthy err) (Caller cb) err true ;;
      if failed then ret tt
      else modify (set_isRunning true) ;; emitOnce EvStart cb
  | StopDone cb =>
      failed <- callbackError (truthy err) cb err true ;;
      if failed then ret tt
      else modify (set_isRunning false) ;;
           emitOnce_with callable invoke EvStop cb
  | ReleaseDataDone cb =>
      if truthy err then emit (EvError err)
      else request (IfaceRelease IFACE_CTL true) (ReleaseCtlDone cb)
  | ReleaseCtlDone cb =>
      if truthy err then emit (EvError err)
      else
        (if linux then
           active <- isKernelDriverActive IFACE_CTL ;;
           if negb active then usb (AttachKernelDriver IFACE_CTL)
           else ret tt
         else ret tt) ;;
        usb DeviceClose ;;
        modify (set_isOpen false) ;;
        emitOnce EvClose cb
  end.

(** *** The event loop *)

Definition idle (w : World) : bool :=
  match ticks w, inflight w with
  | [], [] => true
  | _, _ => false
  end.

(** One turn: the oldest [nextTick] callback if there is one, else the
    completion of the oldest request in flight (requests to the one device
    complete in the order they were issued). *)
Definition turn : M unit := fun w =>
  match ticks w with
  | (cb, arg) :: q =>
      detached (invoke cb arg)
        {| self := self w; trace := trace w; ticks := q;
           inflight := inflight w;
           errorListener := errorListener w |}
  | [] =>
      match inflight w with
      | (c, k) :: q =>
          let err := fails (trace w) c in
          detached (complete k err)
            {| self := self w; trace := trace w ++ [Completed c err];
               ticks := ticks w; inflight := q;
               errorListener := errorListener w |}
      | [] => (Ret tt, w)
      end
  end.

Fixpoint loop (fuel : nat) : M unit := fun w =>
  if idle w then (Ret tt, w)
  else
    match fuel with
    | O => (OutOfFuel, w)
    | S fuel' => (turn ;; loop fuel') w
    end.

(** A call of a method followed by the turns it gives rise to. *)
Definition settled (fuel : nat) (m : M unit) : M unit :=
  m ;; loop fuel.

End Session.

(* ================================================================== *)
(** ** The registry: [index.js] *)

(** A [PenDaq] object is referred to by its handle, its position in the
    [heap] of the objects created so far. *)
Abbreviation Handle := nat (only parsing).

Inductive RegEvent : Type :=
| Connected (arg : option Handle)
| Disconnected (arg : option Handle).

Record Registry : Type := {
  heap : list World;
  devices : list Handle;
  ee : list RegEvent
}.

Definition Registry_init : Registry :=
  {| heap := []; devices := []; ee := [] |}.

(** [function matchVidPid(desc1, desc2)] *)
Definition matchVidPid (desc1 desc2 : option Descriptor) : bool :=
  match desc1, desc2 with
  | Some d1, Some d2 =>
      (idVendor d1 =? idVendor d2)%Z && (idProduct d1 =? idProduct d2)%Z
  | _, _ => false
  end.

(** A number in a condition: zero is falsy. *)
Definition truthy_num (n : Z) : bool := negb (n =? 0)%Z.

(** [function matchDeviceAddresses(dev1, dev2)], by the truth value of what
    it returns. *)
Definition matchDeviceAddresses (dev1 dev2 : option UsbDevice) : bool :=
  match dev1, dev2 with
  | Some d1, Some d2 =>
      truthy_num (busNumber d1)
      && truthy_num (deviceAddress d1)
      && (busNumber d1 =? busNumber d2)%Z
      && (deviceAddress d1 =? deviceAddress d2)%Z
  | _, _ => false
  end.

(** [devices[i]._device], for the handle found at [devices[i]]. *)
Definition device_of (hp : list World) (h : Handle) : option UsbDevice :=
  match hp !! h with
  | Some w => Some (_device (self w))
  | None => None
  end.

(** [for (i = 0; i < l.length; i++) if (test(l[i])) ...]: the first index
    at which the test holds, counting from [i]. *)
Fixpoint first_index {A} (test : A -> bool) (l : list A) (i : nat)
    : option nat :=
  match l with
  | [] => None
  | x :: l' => if test x then Some i else first_index test l' (S i)
  end.

Section Registry.
(** [ids.usbIDs], the allow-list read from [ids.json]. *)
Context (usbIDs : list Descriptor).

(** [function checkNewDevice(dev)] *)
Definition checkNewDevice (dev : option UsbDevice) (r : Registry)
    : Registry :=
  match dev with
  | None => r
  | Some d =>
      match deviceDescriptor d with
      | None => r
      | Some desc =>
          let matchIDs :=
            existsb (fun id => matchVidPid (Some id) (Some desc)) usbIDs in
          if negb matchIDs then r
          else
            let newDev :=
              negb (existsb
                      (fun h => matchDeviceAddresses (device_of (heap r) h)
                                  dev)
                      (devices r)) in
            if negb newDev then r
            else
              match new_PenDaq dev with
              | inl _ => r
              | inr obj =>
                  let pendaq := length (heap r) in
                  {| heap := heap r ++ [obj];
                     devices := devices r ++ [pendaq];
                     ee := ee r ++ [Connected (Some pendaq)] |}
              end
      end
  end.

(** [function checkRemoveDevice(dev)] *)
Definition checkRemoveDevice (dev : option UsbDevice) (r : Registry)
    : Registry :=
  match dev with
  | None => r
  | Some d =>
      match deviceDescriptor d with
      | None => r
      | Some _ =>
          match first_index
                  (fun h => matchDeviceAddresses (device_of (heap r) h) dev)
                  (devices r) 0 with
          | None => r
          | Some i =>
              (* devices[i]._onDisconnect(); *)
              let heap1 :=
                match devices r !! i with
                | Some h => alter (fun w => snd (_onDisconnect w)) h (heap r)
                | None => heap r
                end in
              (* devices.splice(i, 1); *)
              let devices1 := delete i (devices r) in
              (* ee.emit('disconnected', devices[i]); *)
              {| heap := heap1;
                 devices := devices1;
                 ee := ee r ++ [Disconnected (devices1 !! i)] |}
          end
      end
  end.

(** [usbDevs.forEach(function(elm) { checkNewDevice(elm); })], and any
    run of attach notifications. *)
Definition attach_all (devs : list (option UsbDevice)) (r : Registry)
    : Registry :=
  fold_left (fun r dev => checkNewDevice dev r) devs r.

End Registry.

(* ================================================================== *)
(** ** The record format, as the specification words it *)

(** The world after the actions [acts] were appended to its trace. *)
Definition traced (acts : list Action) (w : World) : World :=
  {| self := self w; trace := trace w ++ acts;
     ticks := ticks w; inflight := inflight w;
     errorListener := errorListener w |}.

(** A 16-bit little-endian value from its two bytes. *)
Definition u16le (lo hi : byte) : Z := (byte_val lo + 256 * byte_val hi)%Z.

(** The window number [k] of a buffer: the 9 bytes from offset [9 * k]. *)
Definition window (data : Buffer) (k : nat) : list byte :=
  take 9 (drop (9 * k) data).

(** What one full record stands for: a sample when the ninth byte is the sum
    of the four values modulo 256, a checksum error otherwise. *)
Definition decode_window (rec : list byte) : option Event :=
  match rec with
  | [b0; b1; b2; b3; b4; b5; b6; b7; b8] =>
      let an1 := u16le b0 b1 in
      let an2 := u16le b2 b3 in
      let an3 := u16le b4 b5 in
      let an4 := u16le b6 b7 in
      if (((an1 + an2 + an3 + an4) mod 256) =? byte_val b8)%Z
      then Some (EvData [an1; an2; an3; an4])
      else Some (EvError (Some ChecksumMismatch))
  | _ => None
  end.

(** Scanning in strides of 9 from the start, stopping at a short tail. *)
Fixpoint decode (data : Buffer) : list Event :=
  match data with
  | b0 :: b1 :: b2 :: b3 :: b4 :: b5 :: b6 :: b7 :: b8 :: rest =>
      match decode_window [b0; b1; b2; b3; b4; b5; b6; b7; b8] with
      | Some e => e :: decode rest
      | None => decode rest
      end
  | _ => []
  end.

Definition is_result (e : Event) : bool :=
  match e with
  | EvData _ => true
  | EvError _ => true
  | _ => false
  end.

(* ================================================================== *)
(** ** Observations on a session *)

(** The events of a trace, in the order they were emitted. *)
Definition emitted (acts : list Action) : list Event :=
  omap (fun a => match a with Emit e => Some e | _ => None end) acts.


(** The error [e] was reported: by an ['error'] event or to a callback. *)
Definition reported (e : Err) (acts : list Action) : Prop :=
  Emit (EvError (Some e)) ∈ acts \/ exists name, Invoke name (Some e) ∈ acts.

(** What a caller-supplied [cb] shows of a call: nothing when it is not a
    function. *)
Definition called_back (cb : UserCb) (arg : option Err) : list Action :=
  match cb with
  | Fn name => [Invoke name arg]
  | NotAFunction => []
  end.

(** A USB stack on which every call and every request succeeds. *)
Definition sound_usb (T : Transport) : Prop :=
  (forall h c, throws h c = None) /\ (forall h c, fails h c = None).

Definition ideal_usb : Transport :=
  {| throws := fun _ _ => None;
     fails := fun _ _ => None;
     kernelDriverActive := fun _ => true;
     linux := true |}.

(** What can happen to a session: a method call, a buffer from the data
    endpoint, the detach notice of the registry, a turn of the loop, the
    user adding an ['error'] listener or removing them all, an ['error']
    event of one of the endpoints. *)
Inductive Op : Type :=
| OpOpen (cb : UserCb)
| OpClose (cb : UserCb)
| OpStart (cb : UserCb)
| OpStop (cb : UserCb)
| OpRawData (data : Buffer)
| OpDisconnect
| OpTurn
| OpOnError
| OpRemoveAllListeners
| OpEndpointError (err : option Err).

Definition run_op {T : Transport} (o : Op) : M unit :=
  match o with
  | OpOpen cb => open cb
  | OpClose cb => close cb
  | OpStart cb => start cb
  | OpStop cb => stop (Caller cb)
  | OpRawData data => incomingData data
  | OpDisconnect => _onDisconnect
  | OpTurn => turn
  | OpOnError => on_error
  | OpRemoveAllListeners => removeAllListeners_error
  | OpEndpointError err => endpointError err
  end.

(** The world after a run of operations, whatever each one's outcome. *)
Definition run_ops {T : Transport} (ops : list Op) (w : World) : World :=
  fold_left (fun w o => snd (run_op o w)) ops w.

(** The world after [q] was appended to the [nextTick] queue. *)
Definition ticked (q : list (Callback * option Err)) (w : World) : World :=
  {| self := self w; trace := trace w;
     ticks := ticks w ++ q; inflight := inflight w;
     errorListener := errorListener w |}.

(** The world with the session object changed by [f]. *)
Definition updated (f : PenDaq -> PenDaq) (w : World) : World :=
  {| self := f (self w); trace := trace w;
     ticks := ticks w; inflight := inflight w;
     errorListener := errorListener w |}.

(** A property of the session object that [m] cannot undo. *)
Definition keeps (P : PenDaq -> Prop) {A} (m : M A) : Prop :=
  forall w, P (self w) -> P (self (snd (m w))).

Definition disconnected (p : PenDaq) : Prop := _isConnected p = false.

(** The error that the guards of [start] and [stop] hand to the callback of
    a session that is not connected. *)
Definition refusal (p : PenDaq) : Err :=
  if _isOpen p then NotConnected else NotOpen.

(** What a refused [start] or [stop] leaves behind: the callback, when it is
    a function, queued with the error. *)
Definition refused (cb : Callback) (e : Err) (w : World) : World :=
  ticked (if callable cb then [(cb, Some e)] else []) w.

(* ================================================================== *)
(** ** Observations on the registry *)

(** The device is the one at bus [b], address [a]. *)
Definition at_address (b a : Z) (dev : option UsbDevice) : bool :=
  match dev with
  | Some d => (busNumber d =? b)%Z && (deviceAddress d =? a)%Z
  | None => false
  end.

(** The device passes the two guards of [checkNewDevice]: it has a
    descriptor and the descriptor is on the allow-list. *)
Definition allowed (usbIDs : list Descriptor) (dev : option UsbDevice) : bool :=
  match dev with
  | Some d =>
      match deviceDescriptor d with
      | Some desc =>
          existsb (fun id => matchVidPid (Some id) (Some desc)) usbIDs
      | None => false
      end
  | None => false
  end.

(** The tracked sessions bound to the device at bus [b], address [a]. *)
Definition tracked (b a : Z) (r : Registry) : list Handle :=
  List.filter (fun h => at_address b a (device_of (heap r) h)) (devices r).

(** The ['connected'] events that carry a session bound to that device. *)
Definition connected_events (b a : Z) (r : Registry) : list RegEvent :=
  List.filter (fun ev => match ev with
                         | Connected (Some h) =>
                             at_address b a (device_of (heap r) h)
                         | _ => false
                         end) (ee r).

(** A registry that only attach notifications have touched: its handles
    point into the heap and each tracked session was announced once. *)
Definition attached (r : Registry) : Prop :=
  Forall (fun h => h < length (heap r)) (devices r)
  /\ ee r = (fun h => Connected (Some h)) <$> devices r.

(** An attach notification for an allowed device at bus [b], address [a]. *)
Definition announces (usbIDs : list Descriptor) (b a : Z)
    (dev : option UsbDevice) : bool :=
  allowed usbIDs dev && at_address b a dev.

(* ================================================================== *)
(** ** Sample inputs *)

(** A PenDAq on bus 1 at address 2. *)
Definition pendaq_id : Descriptor := {| idVendor := 0x04D8; idProduct := 0x000A |}.

Definition pendaq_dev : UsbDevice :=
  {| deviceDescriptor := Some pendaq_id; busNumber := 1; deviceAddress := 2 |}.

(** The same kind of device reported on bus 0. *)
Definition pendaq_bus0 : UsbDevice :=
  {| deviceDescriptor := Some pendaq_id; busNumber := 0; deviceAddress := 5 |}.

(** A second PenDAq, on bus 1 at address 3. *)
Definition pendaq_dev2 : UsbDevice :=
  {| deviceDescriptor := Some pendaq_id; busNumber := 1; deviceAddress := 3 |}.

(** A new session, the same after [open], then after [start], then after the
    device was unplugged; all on a USB stack that never fails. *)
Definition w_closed : World := fresh (PenDaq_init pendaq_dev).

Definition w_open : World :=
  snd (settled (T := ideal_usb) 4 (open (T := ideal_usb) NotAFunction) w_closed).

Definition w_running : World :=
  snd (settled (T := ideal_usb) 4 (start (T := ideal_usb) NotAFunction) w_open).

Definition w_unplugged : World := snd (_onDisconnect w_running).

Definition w_closed_unplugged : World := snd (_onDisconnect w_closed).

(* ================================================================== *)
(** ** The registry: [getAvailableDevices], [getDevice] *)

(** [elm._device.busNumber + '.' + elm._device.deviceAddress]: the two
    integers in decimal around a dot. *)
Definition device_id (d : UsbDevice) : string :=
  pretty (busNumber d) +:+ "." +:+ pretty (deviceAddress d).

(** [function getAvailableDevices()] *)
Definition getAvailableDevices (r : Registry) : list string :=
  omap (fun elm => device_id <$> device_of (heap r) elm) (devices r).

(** [function getDevice(id)], for a string [id]; the empty string is falsy.
    The [forEach] assigns [dev] at every match, so the last one stays. *)
Definition getDevice (id : string) (r : Registry) : option Handle :=
  if String.eqb id "" then None
  else
    fold_left
      (fun dev elm =>
         match device_of (heap r) elm with
         | Some d => if String.eqb id (device_id d) then Some elm else dev
         | None => dev
         end)
      (devices r) None.

(* ================================================================== *)
(** ** The registry and its sessions at work *)

(** What reaches the registry and its sessions: an attach or a detach
    notification of the USB stack, or an operation on the session [h]. *)
Inductive Notice : Type :=
| Attach (dev : option UsbDevice)
| Detach (dev : option UsbDevice)
| Use (h : Handle) (o : Op).

Definition notify {T : Transport} (usbIDs : list Descriptor) (n : Notice)
    (r : Registry) : Registry :=
  match n with
  | Attach dev => checkNewDevice usbIDs dev r
  | Detach dev => checkRemoveDevice dev r
  | Use h o =>
      {| heap := alter (fun w => snd (run_op o w)) h (heap r);
         devices := devices r;
         ee := ee r |}
  end.

Definition run_notices {T : Transport} (usbIDs : list Descriptor)
    (ns : list Notice) (r : Registry) : Registry :=
  fold_left (fun r n => notify usbIDs n r) ns r.

(** [_onDisconnect] is for the registry to call, not for the user. *)
Definition external (n : Notice) : bool :=
  match n with
  | Use _ OpDisconnect => false
  | _ => true
  end.

(** The session [h] of the registry, when there is one. *)
Definition session (r : Registry) (h : Handle) : option PenDaq :=
  self <$> heap r !! h.

(** What holds of a registry at work: the tracked handles are distinct and
    point to sessions that are connected and bound to an allowed device;
    every other session ever made is disconnected. *)
Definition well_tracked (usbIDs : list Descriptor) (r : Registry) : Prop :=
  NoDup (devices r)
  /\ (forall h, h ∈ devices r ->
        exists p, session r h = Some p
                  /\ _isConnected p = true
                  /\ allowed usbIDs (Some (_device p)) = true)
  /\ (forall h p, session r h = Some p -> h ∉ devices r ->
        _isConnected p = false).

(* ================================================================== *)
(** ** The earlier manager: the top-level [index.js] *)

Module Manager.

Inductive Event : Type :=
| EvAttach (dev : UsbDevice)
| EvDetach (dev : UsbDevice).

(** [this.devices] holds the USB devices themselves. *)
Record State : Type := {
  devices : list UsbDevice;
  emitted : list Event
}.

Definition init : State := {| devices := []; emitted := [] |}.

(** [function checkNewDevice(dev)] *)
Definition checkNewDevice (usbIDs : list Descriptor) (dev : option UsbDevice)
    (m : State) : State :=
  match dev with
  | None => m
  | Some d =>
      match deviceDescriptor d with
      | None => m
      | Some desc =>
          let matchIDs :=
            existsb (fun id => matchVidPid (Some id) (Some desc)) usbIDs in
          if matchIDs then
            let newDev :=
              negb (existsb
                      (fun d' => matchVidPid (deviceDescriptor d')
                                   (deviceDescriptor d))
                      (devices m)) in
            if newDev then
              {| devices := devices m ++ [d];
                 emitted := emitted m ++ [EvAttach d] |}
            else m
          else m
      end
  end.

(** [function checkRemoveDevice(dev)] *)
Definition checkRemoveDevice (dev : option UsbDevice) (m : State) : State :=
  match dev with
  | None => m
  | Some d =>
      match deviceDescriptor d with
      | None => m
      | Some _ =>
          match first_index
                  (fun d' => (busNumber d' =? busNumber d)%Z
                             && (deviceAddress d' =? deviceAddress d)%Z)
                  (devices m) 0 with
          | None => m
          | Some i =>
              {| devices := delete i (devices m);
                 emitted := emitted m ++ [EvDetach d] |}
          end
      end
  end.

(** The initial scan of [init] and any run of attach notifications. *)
Definition attach_all (usbIDs : list Descriptor)
    (devs : list (option UsbDevice)) (m : State) : State :=
  fold_left (fun m dev => checkNewDevice usbIDs dev m) devs m.

End Manager.

(* ================================================================== *)
(** ** More observations *)

(** The callbacks called, with what they were given, in order. *)
Definition invoked (acts : list Action) : list (string * option Err) :=
  omap (fun a => match a with Invoke n arg => Some (n, arg) | _ => None end)
       acts.

(** An unsigned 16-bit value. *)
Definition uint16 (z : Z) : Prop := (0 <= z < 65536)%Z.

(** A sample event carries four 16-bit values; other events pass. *)
Definition sample_in_range (e : Event) : Prop :=
  match e with
  | EvData s => length s = 4 /\ Forall uint16 s
  | _ => True
  end.

(** The SET CONTROL LINE STATE request of [start] (value 3) and [stop]
    (value 0). *)
Definition carrier_request (value : Z) : UsbCall :=
  ControlTransfer 0x21 0x22 value 0 [].

(** What a call of the caller's [cb] with [arg] adds to [invoked]. *)
Definition called (cb : UserCb) (arg : option Err)
    : list (string * option Err) :=
  match cb with
  | Fn name => [(name, arg)]
  | NotAFunction => []
  end.

(** [m] returns normally from [w] and leaves a session at rest with
    [_isOpen = o] and [_isRunning = r], still connected or not as it was,
    having emitted [evs] and called [cbs]. *)
Definition completes (m : M unit) (w : World) (o r : bool)
    (evs : list Event) (cbs : list (string * option Err)) : Prop :=
  exists w',
    m w = (Ret tt, w')
    /\ _isOpen (self w') = o
    /\ _isRunning (self w') = r
    /\ _isConnected (self w') = _isConnected (self w)
    /\ ticks w' = [] /\ inflight w' = []
    /\ emitted (trace w') = emitted (trace w) ++ evs
    /\ invoked (trace w') = invoked (trace w) ++ cbs.

(** A USB stack whose calls return but whose every request completes with
    an error. *)
Definition stalling_usb : Transport :=
  {| throws := fun _ _ => None;
     fails := fun _ _ => Some (UsbError 4);
     kernelDriverActive := fun _ => false;
     linux := false |}.

(** A USB stack on which the device cannot be opened. *)
Definition refusing_usb : Transport :=
  {| throws := fun _ c => match c with
                          | DeviceOpen => Some (UsbError 3)
                          | _ => None
                          end;
     fails := fun _ _ => None;
     kernelDriverActive := fun _ => false;
     linux := false |}.

(** The string has a dot in it. *)
Fixpoint has_dot (s : string) : bool :=
  match s with
  | EmptyString => false
  | String c s' => Ascii.eqb c "."%char || has_dot s'
  end.

(** Two devices of the same model: [matchVidPid] on their descriptors. *)
Definition same_model (d1 d2 : UsbDevice) : bool :=
  matchVidPid (deviceDescriptor d1) (deviceDescriptor d2).

(** Two devices at the same place, by the loose equality of the earlier
    manager. *)
Definition same_place (d1 d2 : UsbDevice) : bool :=
  (busNumber d1 =? busNumber d2)%Z && (deviceAddress d1 =? deviceAddress d2)%Z.

(* ================================================================== *)
(** ** Events that are raised instead of emitted *)

Definition is_error (e : Event) : bool :=
  match e with
  | EvError _ => true
  | _ => false
  end.

(** Emitting the events of a list one after the other. *)
Fixpoint emit_all (evs : list Event) : M unit :=
  match evs with
  | [] => ret tt
  | e :: evs' => emit e ;; emit_all evs'
  end.

(** The events of a list before its first ['error']. *)
Fixpoint before_error (evs : list Event) : list Event :=
  match evs with
  | [] => []
  | e :: evs' => if is_error e then [] else e :: before_error evs'
  end.

(** The argument of the first ['error'] of a list. *)
Fixpoint first_error (evs : list Event) : option (option Err) :=
  match evs with
  | [] => None
  | EvError arg :: _ => Some arg
  | _ :: evs' => first_error evs'
  end.

(** Every full record of the buffer passes its checksum. *)
Definition checksums_ok (data : Buffer) : bool :=
  forallb (fun e => negb (is_error e)) (decode data).

(** The world after the user added an ['error'] listener. *)
Definition listening (w : World) : World := snd (on_error w).

(** A new session to which the user added an ['error'] listener. *)
Definition w_listening : World := listening w_closed.

(** The record of the specification's example, [01 00 02 00 03 00 04 00 0A],
    and the same with the checksum byte [FF]. *)
Definition good_record : Buffer :=
  [x01; x00; x02; x00; x03; x00; x04; x00; x0a]%byte.

Definition bad_record : Buffer :=
  [x01; x00; x02; x00; x03; x00; x04; x00; xff]%byte.

(** [m] leaves the ['error'] listeners of the session alone. *)
Definition steady {A} (m : M A) : Prop :=
  forall w, errorListener (snd (m w)) = errorListener w.

(** The call that gave [r] from the world [w] is over: the loop did not run
    out of turns and nothing is in flight; nothing is queued either when the
    call returned or the session has an ['error'] listener, and at most the
    one callback that was to be told of an error otherwise. *)
Definition over (w : World) (r : Outcome unit * World) : Prop :=
  fst r <> OutOfFuel
  /\ inflight (snd r) = []
  /\ (errorListener w = true \/ fst r = Ret tt -> ticks (snd r) = [])
  /\ length (ticks (snd r)) <= 1.


(* ================================================================== *)
(** ** Proofs: the monad and the trace *)

Lemma traced_nil w : traced [] w = w.
Proof. destruct w; unfold traced; simpl. by rewrite app_nil_r. Qed.

Lemma traced_traced a b w : traced b (traced a w) = traced (a ++ b) w.
Proof. unfold traced; simpl. by rewrite app_assoc. Qed.

Lemma emitted_app a b : emitted (a ++ b) = emitted a ++ emitted b.
Proof. apply omap_app. Qed.

Lemma log_traced a w : log a w = (Ret tt, traced [a] w).
Proof. reflexivity. Qed.

Lemma bind_Ret {A B} (m : M A) (k : A -> M B) w a w' :
  m w = (Ret a, w') -> bind m k w = k a w'.
Proof. unfold bind. by intros ->. Qed.

(** An [emit] returns when the event is not an ['error'] or somebody
    listens; else it raises and leaves the world as it was. *)
Lemma emit_traced e w :
  is_error e = false \/ errorListener w = true ->
  emit e w = (Ret tt, traced [Emit e] w).
Proof.
  intros [H|H]; destruct e; try discriminate H; try reflexivity;
    unfold emit; by rewrite H.
Qed.

Lemma emit_unheard arg w :
  errorListener w = false ->
  emit (EvError arg) w = (Throw (unhandled arg), w).
Proof. intros H. unfold emit. by rewrite H. Qed.

Lemma emit_frame e w :
  self (snd (emit e w)) = self w
  /\ ticks (snd (emit e w)) = ticks w
  /\ inflight (snd (emit e w)) = inflight w
  /\ errorListener (snd (emit e w)) = errorListener w.
Proof.
  destruct e; try (repeat split; reflexivity).
  unfold emit. destruct (errorListener w) eqn:E;
    repeat split; try reflexivity; exact E.
Qed.

Lemma errorListener_traced acts w :
  errorListener (traced acts w) = errorListener w.
Proof. reflexivity. Qed.

(** What a run of [emit]s comes to: with a listener, or without any
    ['error'] among the events, all are emitted; else the events before the
    first ['error'] are, and its argument is raised. *)
Lemma emit_all_listening evs : forall w,
  errorListener w = true \/ forallb (fun e => negb (is_error e)) evs = true ->
  emit_all evs w = (Ret tt, traced (Emit <$> evs) w).
Proof.
  induction evs as [|e evs IH]; intros w H; simpl.
  - by rewrite traced_nil.
  - assert (He : is_error e = false \/ errorListener w = true).
    { destruct H as [H|H]; [by right|left].
      simpl in H. apply andb_prop in H as [H _]. by destruct (is_error e). }
    rewrite (bind_Ret _ _ _ _ _ (emit_traced e w He)).
    rewrite IH.
    + by rewrite traced_traced.
    + destruct H as [H|H]; [by left|right].
      simpl in H. by apply andb_prop in H as [_ H].
Qed.

Lemma emit_all_unheard evs : forall w,
  errorListener w = false ->
  emit_all evs w
  = (match first_error evs with
     | Some arg => Throw (unhandled arg)
     | None => Ret tt
     end,
     traced (Emit <$> before_error evs) w).
Proof.
  induction evs as [|e evs IH]; intros w H; simpl.
  - by rewrite traced_nil.
  - destruct (is_error e) eqn:He.
    + destruct e; try done. unfold bind.
      rewrite emit_unheard by done. by rewrite traced_nil.
    + rewrite (bind_Ret _ _ _ _ _ (emit_traced e w (or_introl He))).
      rewrite IH by done. rewrite traced_traced.
      by destruct e.
Qed.

Lemma emit_all_app evs1 evs2 w :
  emit_all (evs1 ++ evs2) w = (emit_all evs1 ;; emit_all evs2) w.
Proof.
  revert w. induction evs1 as [|e evs1 IH]; intros w; [done|].
  simpl. unfold bind.
  destruct (emit e w) as [[[]|?|?|] w1]; first [done | by rewrite IH].
Qed.

Lemma before_error_prefix evs : before_error evs `prefix_of` evs.
Proof.
  induction evs as [|e evs IH]; simpl; [done|].
  destruct (is_error e); [apply prefix_nil | by apply prefix_cons].
Qed.

Lemma before_error_clean evs :
  forallb (fun e => negb (is_error e)) evs = true -> before_error evs = evs.
Proof.
  induction evs as [|e evs IH]; simpl; [done|].
  intros H. apply andb_prop in H as [He H]. destruct (is_error e); [done|].
  by rewrite IH.
Qed.

(** The events before the first ['error'] include the event number [k] when
    none of the first [k + 1] is an ['error']. *)
Lemma before_error_lookup evs : forall k e,
  evs !! k = Some e ->
  (forall j e', j <= k -> evs !! j = Some e' -> is_error e' = false) ->
  before_error evs !! k = Some e.
Proof.
  induction evs as [|x evs IH]; intros k e Hk Hall; [done|].
  simpl. rewrite (Hall 0 x) by (done || lia).
  destruct k as [|k]; [done|].
  simpl. apply IH; [done|].
  intros j e' Hj He'. apply (Hall (S j) e'); [lia|done].
Qed.

Lemma first_error_clean evs :
  forallb (fun e => negb (is_error e)) evs = true -> first_error evs = None.
Proof.
  induction evs as [|e evs IH]; simpl; [done|].
  intros H. apply andb_prop in H as [He H]. destruct e; try done; by apply IH.
Qed.

(* ================================================================== *)
(** ** Proofs: the decoder *)

Lemma land_0xFF (x : Z) : Z.land x 0xFF = (x mod 256)%Z.
Proof. change 0xFF%Z with (Z.ones 8). by rewrite Z.land_ones. Qed.

Lemma lookup_from_drop (data : Buffer) i l j :
  drop i data = l -> data !! (i + j) = l !! j.
Proof. intros <-. by rewrite lookup_drop. Qed.

Lemma readUInt8_at (data : Buffer) off b w :
  data !! off = Some b -> readUInt8 data off w = (Ret (byte_val b), w).
Proof. unfold readUInt8. by intros ->. Qed.

Lemma readUInt16LE_at (data : Buffer) off lo hi w :
  data !! off = Some lo -> data !! (off + 1) = Some hi ->
  readUInt16LE data off w = (Ret (u16le lo hi), w).
Proof. unfold readUInt16LE. by intros -> ->. Qed.

Lemma parse_record_window (data : Buffer) i b0 b1 b2 b3 b4 b5 b6 b7 b8 rest w :
  drop i data = b0 :: b1 :: b2 :: b3 :: b4 :: b5 :: b6 :: b7 :: b8 :: rest ->
  exists e,
    decode_window [b0; b1; b2; b3; b4; b5; b6; b7; b8] = Some e /\
    parse_record data i w = (emit e ;; ret (i + 9)) w.
Proof.
  intros Hd.
  pose proof (fun j => lookup_from_drop data i _ j Hd) as L.
  assert (H0 : data !! i = Some b0) by (rewrite <- (Nat.add_0_r i); apply (L 0)).
  assert (H1 : data !! (i + 1) = Some b1) by apply (L 1).
  assert (H2 : data !! (i + 2) = Some b2) by apply (L 2).
  assert (H3 : data !! (i + 2 + 1) = Some b3)
    by (replace (i + 2 + 1) with (i + 3) by lia; apply (L 3)).
  assert (H4 : data !! (i + 2 + 2) = Some b4)
    by (replace (i + 2 + 2) with (i + 4) by lia; apply (L 4)).
  assert (H5 : data !! (i + 2 + 2 + 1) = Some b5)
    by (replace (i + 2 + 2 + 1) with (i + 5) by lia; apply (L 5)).
  assert (H6 : data !! (i + 2 + 2 + 2) = Some b6)
    by (replace (i + 2 + 2 + 2) with (i + 6) by lia; apply (L 6)).
  assert (H7 : data !! (i + 2 + 2 + 2 + 1) = Some b7)
    by (replace (i + 2 + 2 + 2 + 1) with (i + 7) by lia; apply (L 7)).
  assert (H8 : data !! (i + 2 + 2 + 2 + 2) = Some b8)
    by (replace (i + 2 + 2 + 2 + 2) with (i + 8) by lia; apply (L 8)).
  unfold parse_record.
  rewrite (bind_Ret _ _ _ _ _ (readUInt16LE_at data _ _ _ w H0 H1)).
  rewrite (bind_Ret _ _ _ _ _ (readUInt16LE_at data _ _ _ w H2 H3)).
  rewrite (bind_Ret _ _ _ _ _ (readUInt16LE_at data _ _ _ w H4 H5)).
  rewrite (bind_Ret _ _ _ _ _ (readUInt16LE_at data _ _ _ w H6 H7)).
  rewrite (bind_Ret _ _ _ _ _ (readUInt8_at data _ _ w H8)).
  replace (i + 2 + 2 + 2 + 2 + 1) with (i + 9) by lia.
  unfold decode_window. rewrite land_0xFF.
  destruct (_ =? _)%Z; eexists; (split; [reflexivity|]); reflexivity.
Qed.

Lemma decode_short (l : Buffer) : length l < 9 -> decode l = [].
Proof.
  intros H. do 9 (destruct l as [|? l]; [reflexivity|]).
  simpl in H. lia.
Qed.

Lemma parse_from_decode fuel : forall (data : Buffer) i w,
  i <= length data -> length data - i < fuel ->
  parse_from fuel data i w = emit_all (decode (drop i data)) w.
Proof.
  induction fuel as [|fuel IH]; intros data i w Hi Hf; [lia|].
  simpl parse_from.
  destruct (i <? length data) eqn:Hlt; cbn [negb].
  2:{ apply Nat.ltb_ge in Hlt. by rewrite drop_ge by lia. }
  apply Nat.ltb_lt in Hlt.
  destruct (length data <? i + 9) eqn:Hbrk.
  { apply Nat.ltb_lt in Hbrk. rewrite decode_short; [done|].
    rewrite length_drop. lia. }
  apply Nat.ltb_ge in Hbrk.
  assert (Hlen : 9 <= length (drop i data)) by (rewrite length_drop; lia).
  destruct (drop i data) as [|b0 [|b1 [|b2 [|b3 [|b4 [|b5 [|b6 [|b7 [|b8 rest]]]]]]]]]
    eqn:Hd; simpl in Hlen; try lia.
  destruct (parse_record_window data i _ _ _ _ _ _ _ _ _ _ w Hd) as (e & He & Hp).
  change (decode (b0 :: b1 :: b2 :: b3 :: b4 :: b5 :: b6 :: b7 :: b8 :: rest))
    with (match decode_window [b0; b1; b2; b3; b4; b5; b6; b7; b8] with
          | Some e => e :: decode rest
          | None => decode rest
          end).
  rewrite He. cbn [emit_all]. unfold bind at 1. rewrite Hp. unfold bind.
  destruct (emit e w) as [[[]|?|?|] w1]; try done.
  unfold ret. rewrite IH by lia.
  replace (drop (i + 9) data) with rest; [done|].
  by rewrite <- drop_drop, Hd.
Qed.

(** The decoder refines the stride-9 scan: it emits, one after the other,
    what the full records of the buffer stand for. *)
Lemma onRawData_emits (data : Buffer) w :
  _onRawData data w = emit_all (decode data) w.
Proof.
  unfold _onRawData. rewrite parse_from_decode by lia. by rewrite drop_0.
Qed.

(** With a listener, or on a buffer of good records, nothing is raised. *)
Lemma onRawData_decode (data : Buffer) w :
  errorListener w = true \/ checksums_ok data = true ->
  _onRawData data w = (Ret tt, traced (Emit <$> decode data) w).
Proof. intros H. rewrite onRawData_emits. by apply emit_all_listening. Qed.

(** Without a listener the first bad record ends the scan. *)
Lemma onRawData_unheard (data : Buffer) w :
  errorListener w = false ->
  _onRawData data w
  = (match first_error (decode data) with
     | Some arg => Throw (unhandled arg)
     | None => Ret tt
     end,
     traced (Emit <$> before_error (decode data)) w).
Proof. intros H. rewrite onRawData_emits. by apply emit_all_unheard. Qed.

(** Whatever the outcome, the decoder only appends events to the trace, and
    they are the first of what the buffer decodes to. *)
Lemma onRawData_appends (data : Buffer) w :
  exists evs,
    snd (_onRawData data w) = traced (Emit <$> evs) w
    /\ evs `prefix_of` decode data
    /\ (errorListener w = true -> evs = decode data)
    /\ (errorListener w = false -> evs = before_error (decode data)).
Proof.
  destruct (errorListener w) eqn:Hl.
  - exists (decode data). rewrite onRawData_decode by (by left).
    repeat split; done.
  - exists (before_error (decode data)). rewrite onRawData_unheard by done.
    repeat split; try done. apply before_error_prefix.
Qed.

Lemma chunk9_ind (P : Buffer -> Prop) :
  (forall l, length l < 9 -> P l) ->
  (forall b0 b1 b2 b3 b4 b5 b6 b7 b8 rest,
      P rest -> P (b0 :: b1 :: b2 :: b3 :: b4 :: b5 :: b6 :: b7 :: b8 :: rest)) ->
  forall l, P l.
Proof.
  intros Hshort Hstep l.
  remember (length l) as n eqn:Hn. revert l Hn.
  induction n as [n IH] using lt_wf_ind. intros l ->.
  destruct (le_lt_dec 9 (length l)) as [Hge|Hlt]; [|by apply Hshort].
  destruct l as [|b0 [|b1 [|b2 [|b3 [|b4 [|b5 [|b6 [|b7 [|b8 rest]]]]]]]]];
    simpl in Hge; try lia.
  apply Hstep. eapply IH; [|reflexivity]. simpl. lia.
Qed.

Lemma decode_window_full b0 b1 b2 b3 b4 b5 b6 b7 b8 :
  exists e, decode_window [b0; b1; b2; b3; b4; b5; b6; b7; b8] = Some e
            /\ is_result e = true.
Proof.
  unfold decode_window. destruct (_ =? _)%Z; eexists; split; reflexivity.
Qed.

Lemma decode_window_short (l : list byte) :
  length l <> 9 -> decode_window l = None.
Proof.
  intros H. do 9 (destruct l as [|? l]; [reflexivity|]).
  destruct l; [simpl in H; lia | reflexivity].
Qed.

Lemma decode_step b0 b1 b2 b3 b4 b5 b6 b7 b8 rest :
  exists e, decode_window [b0; b1; b2; b3; b4; b5; b6; b7; b8] = Some e
    /\ is_result e = true
    /\ decode (b0 :: b1 :: b2 :: b3 :: b4 :: b5 :: b6 :: b7 :: b8 :: rest)
       = e :: decode rest.
Proof.
  destruct (decode_window_full b0 b1 b2 b3 b4 b5 b6 b7 b8) as (e & He & Hr).
  exists e. repeat split; try done.
  change (decode (b0 :: b1 :: b2 :: b3 :: b4 :: b5 :: b6 :: b7 :: b8 :: rest))
    with (match decode_window [b0; b1; b2; b3; b4; b5; b6; b7; b8] with
          | Some e => e :: decode rest
          | None => decode rest
          end).
  by rewrite He.
Qed.

Lemma decode_length (data : Buffer) : length (decode data) = length data / 9.
Proof.
  induction data as [l Hl|b0 b1 b2 b3 b4 b5 b6 b7 b8 rest IH] using chunk9_ind.
  - rewrite decode_short by done. by rewrite Nat.div_small.
  - destruct (decode_step b0 b1 b2 b3 b4 b5 b6 b7 b8 rest) as (e & _ & _ & ->).
    cbn [length]. rewrite IH.
    change (S (S (S (S (S (S (S (S (S (length rest))))))))))
      with (1 * 9 + length rest).
    by rewrite Nat.div_add_l.
Qed.

Lemma decode_results (data : Buffer) :
  Forall (fun e => is_result e = true) (decode data).
Proof.
  induction data as [l Hl|b0 b1 b2 b3 b4 b5 b6 b7 b8 rest IH] using chunk9_ind.
  - rewrite decode_short by done. constructor.
  - destruct (decode_step b0 b1 b2 b3 b4 b5 b6 b7 b8 rest) as (e & _ & Hr & ->).
    by constructor.
Qed.

(** The result number [k] is what window [k] stands for. *)
Lemma decode_lookup (data : Buffer) : forall k,
  decode data !! k = decode_window (window data k).
Proof.
  induction data as [l Hl|b0 b1 b2 b3 b4 b5 b6 b7 b8 rest IH] using chunk9_ind;
    intros k.
  - rewrite decode_short by done. rewrite decode_window_short; [done|].
    unfold window. rewrite length_take, length_drop. lia.
  - destruct (decode_step b0 b1 b2 b3 b4 b5 b6 b7 b8 rest) as (e & He & _ & ->).
    destruct k as [|k].
    + transitivity (Some e); [reflexivity | symmetry; exact He].
    + cbn [lookup list_lookup]. rewrite IH. unfold window.
      replace (9 * S k) with (9 + 9 * k) by lia. reflexivity.
Qed.

(** Bytes after the last full record change nothing. *)
Lemma decode_tail (records tail : Buffer) :
  length records mod 9 = 0 -> length tail < 9 ->
  decode (records ++ tail) = decode records.
Proof.
  revert tail.
  induction records as [l Hl|b0 b1 b2 b3 b4 b5 b6 b7 b8 rest IH] using chunk9_ind;
    intros tail Hm Ht.
  - rewrite Nat.mod_small in Hm by done. destruct l; [|done].
    rewrite (decode_short []) by (simpl; lia). by apply decode_short.
  - destruct (decode_step b0 b1 b2 b3 b4 b5 b6 b7 b8 rest) as (e & He & _ & ->).
    destruct (decode_step b0 b1 b2 b3 b4 b5 b6 b7 b8 (rest ++ tail))
      as (e' & He' & _ & Hd).
    simpl app. rewrite Hd. rewrite He in He'. injection He' as <-.
    f_equal. apply IH; [|done].
    cbn [length] in Hm.
    change (S (S (S (S (S (S (S (S (S (length rest))))))))))
      with (1 * 9 + length rest) in Hm.
    rewrite Nat.add_comm, Nat.Div0.mod_add in Hm. done.
Qed.

Lemma decode_whole_records (data : Buffer) :
  decode (take (9 * (length data / 9)) data) = decode data.
Proof.
  set (m := 9 * (length data / 9)).
  assert (Hm : m <= length data) by (apply Nat.Div0.mul_div_le).
  rewrite <- (take_drop m data) at 2.
  symmetry. apply decode_tail.
  - rewrite length_take_le by done. unfold m.
    by rewrite Nat.mul_comm, Nat.Div0.mod_mul.
  - rewrite length_drop. unfold m.
    pose proof (Nat.div_mod_eq (length data) 9).
    pose proof (Nat.mod_upper_bound (length data) 9). lia.
Qed.

Lemma onRawData_twice (d1 d2 : Buffer) w :
  (_onRawData d1 ;; _onRawData d2) w = emit_all (decode d1 ++ decode d2) w.
Proof.
  rewrite emit_all_app. unfold bind. rewrite onRawData_emits.
  destruct (emit_all (decode d1) w) as [[[]|?|?|] w1]; try done.
  apply onRawData_emits.
Qed.

(** A full record stands for a sample or for the checksum error. *)
Lemma decode_window_shape (l : list byte) e :
  decode_window l = Some e ->
  e = EvError (Some ChecksumMismatch) \/ exists s, e = EvData s.
Proof.
  unfold decode_window.
  do 9 (destruct l as [|? l]; [done|]). destruct l; [|done].
  destruct (_ =? _)%Z; intros [= <-]; [right; by eexists | by left].
Qed.

Lemma first_error_decode (data : Buffer) arg :
  first_error (decode data) = Some arg -> arg = Some ChecksumMismatch.
Proof.
  induction data as [l Hl|b0 b1 b2 b3 b4 b5 b6 b7 b8 rest IH] using chunk9_ind.
  - by rewrite decode_short.
  - destruct (decode_step b0 b1 b2 b3 b4 b5 b6 b7 b8 rest) as (e & He & _ & ->).
    destruct (decode_window_shape _ _ He) as [->|[s ->]]; simpl; [|done].
    by intros [= <-].
Qed.

Lemma first_error_found evs :
  forallb (fun e => negb (is_error e)) evs = false ->
  exists arg, first_error evs = Some arg.
Proof.
  induction evs as [|e evs IH]; simpl; [done|].
  destruct e; simpl; try exact IH. by eexists.
Qed.

(** The decoder returns, or raises the checksum error for want of a
    listener. *)
Lemma onRawData_outcome (data : Buffer) w :
  fst (_onRawData data w) = Ret tt
  \/ (errorListener w = false
      /\ fst (_onRawData data w) = Throw ChecksumMismatch).
Proof.
  destruct (errorListener w) eqn:Hl.
  - left. by rewrite onRawData_decode by (by left).
  - rewrite onRawData_unheard by done. cbn [fst].
    destruct (first_error (decode data)) as [arg|] eqn:E; [|by left].
    right. by rewrite (first_error_decode _ _ E).
Qed.

(* ================================================================== *)
(** ** Proofs: the decoder of the earlier revision *)

(** On a buffer of whole records the loop without [break] does the same. *)
Lemma onRawData_from_whole fuel : forall (data : Buffer) i w,
  i <= length data -> (length data - i) mod 9 = 0 ->
  onRawData_from fuel data i w = parse_from fuel data i w.
Proof.
  induction fuel as [|fuel IH]; intros data i w Hi Hm; [done|].
  simpl. destruct (i <? length data) eqn:Hlt; cbn [negb]; [|done].
  apply Nat.ltb_lt in Hlt.
  assert (Hge : 9 <= length data - i).
  { pose proof (Nat.div_mod_eq (length data - i) 9) as E.
    rewrite Hm in E. lia. }
  replace (length data <? i + 9) with false
    by (symmetry; apply Nat.ltb_ge; lia).
  assert (Hlen : 9 <= length (drop i data)) by (rewrite length_drop; lia).
  destruct (drop i data) as [|b0 [|b1 [|b2 [|b3 [|b4 [|b5 [|b6 [|b7 [|b8 rest]]]]]]]]]
    eqn:Hd; simpl in Hlen; try lia.
  destruct (parse_record_window data i _ _ _ _ _ _ _ _ _ _ w Hd) as (e & _ & Hp).
  unfold bind. rewrite Hp. unfold bind.
  destruct (emit e w) as [[[]|?|?|] w1]; try done.
  unfold ret. apply IH; [lia|].
  replace (length data - i) with (length data - (i + 9) + 1 * 9) in Hm by lia.
  by rewrite Nat.Div0.mod_add in Hm.
Qed.

Lemma onRawData_whole_records (data : Buffer) w :
  length data mod 9 = 0 -> onRawData data w = _onRawData data w.
Proof.
  intros Hm. apply onRawData_from_whole; [lia|]. by rewrite Nat.sub_0_r.
Qed.

Lemma parse_record_short (data : Buffer) i w :
  0 < length (drop i data) < 9 ->
  parse_record data i w = (Throw (RangeError "Index out of range"), w).
Proof.
  intros Hl.
  pose proof (fun j => lookup_from_drop data i _ j eq_refl) as L.
  assert (H0 : data !! i = drop i data !! 0)
    by (rewrite <- (Nat.add_0_r i) at 1; apply (L 0)).
  pose proof (L 1) as H1. pose proof (L 2) as H2.
  assert (H3 : data !! (i + 2 + 1) = drop i data !! 3)
    by (replace (i + 2 + 1) with (i + 3) by lia; apply (L 3)).
  assert (H4 : data !! (i + 2 + 2) = drop i data !! 4)
    by (replace (i + 2 + 2) with (i + 4) by lia; apply (L 4)).
  assert (H5 : data !! (i + 2 + 2 + 1) = drop i data !! 5)
    by (replace (i + 2 + 2 + 1) with (i + 5) by lia; apply (L 5)).
  assert (H6 : data !! (i + 2 + 2 + 2) = drop i data !! 6)
    by (replace (i + 2 + 2 + 2) with (i + 6) by lia; apply (L 6)).
  assert (H7 : data !! (i + 2 + 2 + 2 + 1) = drop i data !! 7)
    by (replace (i + 2 + 2 + 2 + 1) with (i + 7) by lia; apply (L 7)).
  assert (H8 : data !! (i + 2 + 2 + 2 + 2) = drop i data !! 8)
    by (replace (i + 2 + 2 + 2 + 2) with (i + 8) by lia; apply (L 8)).
  clear L. unfold parse_record, readUInt16LE, readUInt8.
  rewrite H0, H1, H2, H3, H4, H5, H6, H7, H8.
  destruct (drop i data) as [|b0 [|b1 [|b2 [|b3 [|b4 [|b5 [|b6 [|b7 [|b8 rest]]]]]]]]];
    simpl in Hl; try lia; reflexivity.
Qed.

(** With a short tail the loop without [break] goes on into it: after the
    full records, a read past the end raises. *)
Lemma onRawData_from_short fuel : forall (data : Buffer) i w,
  i <= length data -> length data - i < fuel ->
  (length data - i) mod 9 <> 0 ->
  onRawData_from fuel data i w
  = (emit_all (decode (drop i data)) ;;
     throw (RangeError "Index out of range")) w.
Proof.
  induction fuel as [|fuel IH]; intros data i w Hi Hf Hm; [lia|].
  simpl onRawData_from.
  destruct (i <? length data) eqn:Hlt; cbn [negb].
  2:{ apply Nat.ltb_ge in Hlt. replace (length data - i) with 0 in Hm by lia.
      done. }
  apply Nat.ltb_lt in Hlt.
  destruct (le_lt_dec 9 (length data - i)) as [Hge|Hshort].
  - assert (Hlen : 9 <= length (drop i data)) by (rewrite length_drop; lia).
    destruct (drop i data) as [|b0 [|b1 [|b2 [|b3 [|b4 [|b5 [|b6 [|b7 [|b8 rest]]]]]]]]]
      eqn:Hd; simpl in Hlen; try lia.
    destruct (parse_record_window data i _ _ _ _ _ _ _ _ _ _ w Hd)
      as (e & He & Hp).
    destruct (decode_step b0 b1 b2 b3 b4 b5 b6 b7 b8 rest)
      as (e' & He' & _ & ->).
    rewrite He in He'. injection He' as <-.
    cbn [emit_all]. unfold bind at 1. rewrite Hp. unfold bind.
    destruct (emit e w) as [[[]|?|?|] w1]; try done.
    unfold ret. rewrite IH; [|lia|lia|].
    + replace (drop (i + 9) data) with rest
        by (rewrite <- drop_drop, Hd; reflexivity).
      reflexivity.
    + intros Hz. apply Hm.
      replace (length data - i) with (length data - (i + 9) + 1 * 9) by lia.
      by rewrite Nat.Div0.mod_add.
  - unfold bind. rewrite parse_record_short by (rewrite length_drop; lia).
    by rewrite decode_short by (rewrite length_drop; lia).
Qed.

Lemma onRawData_short_tail (data : Buffer) w :
  length data mod 9 <> 0 ->
  onRawData data w
  = (_onRawData data ;; throw (RangeError "Index out of range")) w.
Proof.
  intros Hm. unfold onRawData. rewrite onRawData_from_short; [|lia|lia|].
  - rewrite drop_0. unfold bind. by rewrite onRawData_emits.
  - by rewrite Nat.sub_0_r.
Qed.

(* ================================================================== *)
(** ** The claims on the decoder *)

(** C1, with what the code asks of the session.  A 9-byte window at offset
    [9 * k] whose ninth byte is the low 8 bits of [an1 + an2 + an3 + an4]
    makes [_onRawData] emit, as event number [k] of the call, the sample of
    the four 16-bit values read little-endian at offsets [9k], [9k+2],
    [9k+4], [9k+6], provided the session has an ['error'] listener or no
    earlier window of the buffer fails its checksum.  Every event of the call
    is what the window of its number stands for; with a listener the call
    returns after one event per full record. *)
Theorem valid_window_yields_sample
    (data : Buffer) (k : nat) (b0 b1 b2 b3 b4 b5 b6 b7 b8 : byte) (w : World) :
  window data k = [b0; b1; b2; b3; b4; b5; b6; b7; b8] ->
  byte_val b8
  = Z.land (u16le b0 b1 + u16le b2 b3 + u16le b4 b5 + u16le b6 b7) 0xFF ->
  errorListener w = true
  \/ (forall j, j < k ->
        decode_window (window data j) <> Some (EvError (Some ChecksumMismatch))) ->
  exists evs : list Event,
    snd (_onRawData data w) = traced (Emit <$> evs) w
    /\ evs !! k
       = Some (EvData [u16le b0 b1; u16le b2 b3; u16le b4 b5; u16le b6 b7])
    /\ (forall j e, evs !! j = Some e -> decode_window (window data j) = Some e)
    /\ (errorListener w = true ->
        fst (_onRawData data w) = Ret tt /\ length evs = length data / 9).
Proof.
  intros Hw Hsum Hok.
  assert (Hk : decode data !! k
               = Some (EvData [u16le b0 b1; u16le b2 b3; u16le b4 b5;
                               u16le b6 b7])).
  { rewrite decode_lookup, Hw. unfold decode_window.
    rewrite land_0xFF in Hsum. by rewrite <- Hsum, Z.eqb_refl. }
  destruct (onRawData_appends data w) as (evs & Hsnd & Hpre & Hall & Hcut).
  exists evs. split; [done|]. split; [|split].
  - destruct (errorListener w) eqn:Hl; [by rewrite Hall|].
    rewrite Hcut by done. apply before_error_lookup; [done|].
    intros j e' Hj He'. rewrite decode_lookup in He'.
    destruct (decide (j = k)) as [->|Hne].
    + rewrite decode_lookup in Hk. rewrite Hk in He'. by injection He' as <-.
    + destruct Hok as [Hok|Hok]; [done|].
      destruct (decode_window_shape _ _ He') as [->|[s ->]]; [|done].
      destruct (Hok j); [lia|done].
  - intros j e He. rewrite <- decode_lookup.
    by apply (prefix_lookup_Some evs).
  - intros Hl. rewrite onRawData_decode by (by left).
    split; [done|]. rewrite Hall by done. apply decode_length.
Qed.

(** The example of the specification as the second record of a buffer, on a
    new session: the record before it is good. *)
Lemma valid_window_yields_sample_witness :
  exists evs : list Event,
    snd (_onRawData (good_record ++ good_record) w_closed)
    = traced (Emit <$> evs) w_closed
    /\ evs !! 1 = Some (EvData [1; 2; 3; 4]%Z)
    /\ (forall j e, evs !! j = Some e ->
          decode_window (window (good_record ++ good_record) j) = Some e)
    /\ (errorListener w_closed = true ->
        fst (_onRawData (good_record ++ good_record) w_closed) = Ret tt
        /\ length evs = length (good_record ++ good_record) / 9).
Proof.
  apply (valid_window_yields_sample (good_record ++ good_record) 1
           x01 x00 x02 x00 x03 x00 x04 x00 x0a w_closed);
    [reflexivity | reflexivity |].
  right. intros j Hj. assert (j = 0) as -> by lia. vm_compute. discriminate.
Defined.

(** C1 as stated fails on a session without an ['error'] listener: the
    second window of the buffer is good, but the first is not and its error
    is raised out of the decoder, which emits nothing. *)
Lemma valid_window_behind_a_mismatch_is_lost :
  window (bad_record ++ good_record) 1 = good_record
  /\ decode_window good_record = Some (EvData [1; 2; 3; 4]%Z)
  /\ errorListener w_closed = false
  /\ _onRawData (bad_record ++ good_record) w_closed
     = (Throw ChecksumMismatch, w_closed).
Proof. repeat split. Qed.

(** C2, with what the code asks of the session.  When the session has an
    ['error'] listener, or every full record of the buffer passes its
    checksum, the decoder returns after appending [floor(length / 9)]
    results, each a sample or a checksum error, one per window of 9 bytes
    from offset 0; the bytes after the last full record produce nothing; a
    second call decodes as it would by itself, and the empty buffer leaves
    the world as it was.  The decoder of the earlier revision does the same
    on a buffer of whole records. *)
Theorem decoder_yields_floor_results (data : Buffer) (w : World) :
  errorListener w = true \/ checksums_ok data = true ->
  _onRawData data w = (Ret tt, traced (Emit <$> decode data) w)
  /\ length (decode data) = length data / 9
  /\ Forall (fun e => is_result e = true) (decode data)
  /\ (forall k, decode data !! k = decode_window (window data k))
  /\ _onRawData (take (9 * (length data / 9)) data) w = _onRawData data w
  /\ (forall data',
         (_onRawData data ;; _onRawData data') w
         = _onRawData data' (traced (Emit <$> decode data) w))
  /\ _onRawData [] w = (Ret tt, w)
  /\ (length data mod 9 = 0 -> onRawData data w = _onRawData data w).
Proof.
  intros H.
  split; [|split; [|split; [|split; [|split; [|split; [|split]]]]]].
  - by apply onRawData_decode.
  - apply decode_length.
  - apply decode_results.
  - apply decode_lookup.
  - by rewrite !onRawData_emits, decode_whole_records.
  - intros data'. by rewrite (bind_Ret _ _ _ _ _ (onRawData_decode data w H)).
  - reflexivity.
  - apply onRawData_whole_records.
Qed.

(** A bad record and a good one, and four bytes more, on a session that
    listens. *)
Lemma decoder_yields_floor_results_witness :
  _onRawData (bad_record ++ good_record ++ [x01; x02; x03; x04]%byte)
    w_listening
  = (Ret tt,
     traced [Emit (EvError (Some ChecksumMismatch));
             Emit (EvData [1; 2; 3; 4]%Z)] w_listening).
Proof.
  apply (decoder_yields_floor_results
           (bad_record ++ good_record ++ [x01; x02; x03; x04]%byte)
           w_listening).
  left. reflexivity.
Defined.

(** C2 as stated fails twice.  On a session without an ['error'] listener a
    buffer of two records, the first of them bad, gives no result at all:
    the error is raised.  And the decoder of the earlier revision, even on a
    session that listens, raises [RangeError] on a trailing partial record
    instead of dropping it. *)
Lemma decoder_raises_instead :
  length (bad_record ++ good_record) / 9 = 2
  /\ errorListener w_closed = false
  /\ _onRawData (bad_record ++ good_record) w_closed
     = (Throw ChecksumMismatch, w_closed)
  /\ errorListener w_listening = true
  /\ onRawData (good_record ++ [x01]%byte) w_listening
     = (Throw (RangeError "Index out of range"),
        traced [Emit (EvData [1; 2; 3; 4]%Z)] w_listening).
Proof. repeat split. Qed.

(** C3, with what the code asks of the session.  On a session that has an
    ['error'] listener, a 9-byte window whose ninth byte differs from
    [(an1 + an2 + an3 + an4) mod 256] yields the checksum error, and no
    sample, as the result of that window; the scan goes on: the run returns
    normally with one result for every complete window of the buffer, each
    later one being what its own window stands for. *)
Theorem mismatch_yields_error_and_scan_continues
    (data : Buffer) (k : nat) (b0 b1 b2 b3 b4 b5 b6 b7 b8 : byte) (w : World) :
  window data k = [b0; b1; b2; b3; b4; b5; b6; b7; b8] ->
  byte_val b8
  <> ((u16le b0 b1 + u16le b2 b3 + u16le b4 b5 + u16le b6 b7) mod 256)%Z ->
  errorListener w = true ->
  exists evs : list Event,
    _onRawData data w = (Ret tt, traced (Emit <$> evs) w)
    /\ evs !! k = Some (EvError (Some ChecksumMismatch))
    /\ length evs = length data / 9
    /\ (forall j, k < j -> evs !! j = decode_window (window data j)).
Proof.
  intros Hw Hsum Hl. exists (decode data). split; [|split; [|split]].
  - apply onRawData_decode. by left.
  - rewrite decode_lookup, Hw. unfold decode_window.
    destruct (Z.eqb_spec
                ((u16le b0 b1 + u16le b2 b3 + u16le b4 b5 + u16le b6 b7)
                   mod 256) (byte_val b8)) as [E|E]; [|reflexivity].
    by destruct Hsum.
  - apply decode_length.
  - intros j _. apply decode_lookup.
Qed.

(** The example of the specification with checksum byte [FF], followed by a
    good record, on a session that listens. *)
Lemma mismatch_yields_error_and_scan_continues_witness :
  exists evs : list Event,
    _onRawData (bad_record ++ good_record) w_listening
    = (Ret tt, traced (Emit <$> evs) w_listening)
    /\ evs !! 0 = Some (EvError (Some ChecksumMismatch))
    /\ length evs = length (bad_record ++ good_record) / 9
    /\ (forall j, 0 < j ->
          evs !! j = decode_window (window (bad_record ++ good_record) j)).
Proof.
  apply (mismatch_yields_error_and_scan_continues
           (bad_record ++ good_record) 0
           x01 x00 x02 x00 x03 x00 x04 x00 xff w_listening);
    [reflexivity | vm_compute; discriminate | reflexivity].
Defined.

(** C3 as stated fails on a session without an ['error'] listener: the
    mismatch of the first window is raised out of the decoder, no ['error']
    event is emitted, and the good window behind it is not decoded. *)
Lemma mismatch_without_listener_ends_the_scan :
  errorListener w_closed = false
  /\ decode_window (window (bad_record ++ good_record) 0)
     = Some (EvError (Some ChecksumMismatch))
  /\ decode_window (window (bad_record ++ good_record) 1)
     = Some (EvData [1; 2; 3; 4]%Z)
  /\ fst (_onRawData (bad_record ++ good_record) w_closed)
     = Throw ChecksumMismatch
  /\ emitted (trace (snd (_onRawData (bad_record ++ good_record) w_closed)))
     = [].
Proof. repeat split. Qed.

(** C9. Decoding a buffer, whatever it yields and whether it returns or
    raises the checksum error, leaves the session object as it was:
    [_isOpen], [_isRunning] and [_isConnected] hold the values they held
    before the call, and nothing is queued.  It returns when the session has
    an ['error'] listener or every full record passes its checksum, and
    raises the checksum error otherwise. *)
Theorem decoding_keeps_lifecycle (data : Buffer) (w : World) :
  self (snd (_onRawData data w)) = self w
  /\ _isOpen (self (snd (_onRawData data w))) = _isOpen (self w)
  /\ _isRunning (self (snd (_onRawData data w))) = _isRunning (self w)
  /\ _isConnected (self (snd (_onRawData data w))) = _isConnected (self w)
  /\ ticks (snd (_onRawData data w)) = ticks w
  /\ inflight (snd (_onRawData data w)) = inflight w
  /\ fst (_onRawData data w)
     = if errorListener w || checksums_ok data then Ret tt
       else Throw ChecksumMismatch.
Proof.
  split; [|split; [|split; [|split; [|split; [|split]]]]];
    try (by destruct (onRawData_appends data w) as (evs & -> & _)).
  destruct (errorListener w) eqn:Hl; cbn [orb].
  - by rewrite onRawData_decode by (by left).
  - destruct (checksums_ok data) eqn:Hok.
    + by rewrite onRawData_decode by (by right).
    + rewrite onRawData_unheard by done. cbn [fst].
      destruct (first_error_found _ Hok) as [arg Harg]. rewrite Harg.
      by rewrite (first_error_decode _ _ Harg).
Qed.

(* ================================================================== *)
(** ** More on the decoder *)

Lemma decode_app (a b : Buffer) :
  length a mod 9 = 0 -> decode (a ++ b) = decode a ++ decode b.
Proof.
  revert b.
  induction a as [l Hl|b0 b1 b2 b3 b4 b5 b6 b7 b8 rest IH] using chunk9_ind;
    intros b Hm.
  - rewrite Nat.mod_small in Hm by done. by destruct l.
  - destruct (decode_step b0 b1 b2 b3 b4 b5 b6 b7 b8 rest) as (e & He & _ & ->).
    destruct (decode_step b0 b1 b2 b3 b4 b5 b6 b7 b8 (rest ++ b))
      as (e' & He' & _ & Hd).
    simpl app. rewrite Hd. rewrite He in He'. injection He' as <-.
    f_equal. apply IH.
    cbn [length] in Hm.
    change (S (S (S (S (S (S (S (S (S (length rest))))))))))
      with (1 * 9 + length rest) in Hm.
    by rewrite Nat.add_comm, Nat.Div0.mod_add in Hm.
Qed.

(** X1. Two buffers given one after the other decode to the same results as
    their concatenation given at once, when the first holds whole records. *)
Theorem aligned_chunks_decode_alike (a b : Buffer) (w : World) :
  length a mod 9 = 0 ->
  (_onRawData a ;; _onRawData b) w = _onRawData (a ++ b) w.
Proof.
  intros Hm. rewrite onRawData_twice, onRawData_emits.
  by rewrite decode_app.
Qed.

Lemma aligned_chunks_decode_alike_witness :
  (_onRawData [x01; x00; x02; x00; x03; x00; x04; x00; x0a]%byte ;;
   _onRawData [x05; x00; x06; x00; x07; x00; x08; x00; x1a; x01]%byte)
    (fresh (PenDaq_init pendaq_dev))
  = _onRawData ([x01; x00; x02; x00; x03; x00; x04; x00; x0a]%byte
                ++ [x05; x00; x06; x00; x07; x00; x08; x00; x1a; x01]%byte)
      (fresh (PenDaq_init pendaq_dev)).
Proof.
  apply (aligned_chunks_decode_alike
           [x01; x00; x02; x00; x03; x00; x04; x00; x0a]%byte).
  reflexivity.
Defined.

(** X2. A record that arrives split over two buffers is lost: the two calls
    return and leave the world as it was.  The record in one buffer yields
    one result: its sample or its checksum error is emitted, or, when it is
    the error and the session has no ['error'] listener, raised. *)
Theorem split_record_is_lost (rec : Buffer) (j : nat) (w : World) :
  length rec = 9 -> 0 < j < 9 ->
  (_onRawData (take j rec) ;; _onRawData (drop j rec)) w = (Ret tt, w)
  /\ exists e,
       decode_window rec = Some e
       /\ is_result e = true
       /\ _onRawData rec w
          = if is_error e && negb (errorListener w)
            then (Throw ChecksumMismatch, w)
            else (Ret tt, traced [Emit e] w).
Proof.
  intros Hl Hj. split.
  - rewrite onRawData_twice.
    by rewrite !decode_short by (rewrite ?length_take, ?length_drop; lia).
  - do 9 (destruct rec as [|? rec]; [done|]). destruct rec; [|done].
    rewrite onRawData_emits.
    destruct (decode_step b b0 b1 b2 b3 b4 b5 b6 b7 []) as (e & He & Hr & ->).
    exists e. split; [done|]. split; [done|].
    rewrite (decode_short []) by (simpl; lia).
    destruct (decode_window_shape _ _ He) as [->|[s ->]]; [|done].
    cbn. unfold bind, emit. by destruct (errorListener w).
Qed.

Lemma split_record_is_lost_witness :
  (_onRawData (take 4 bad_record) ;; _onRawData (drop 4 bad_record)) w_closed
  = (Ret tt, w_closed)
  /\ exists e,
       decode_window bad_record = Some e
       /\ is_result e = true
       /\ _onRawData bad_record w_closed
          = if is_error e && negb (errorListener w_closed)
            then (Throw ChecksumMismatch, w_closed)
            else (Ret tt, traced [Emit e] w_closed).
Proof.
  apply (split_record_is_lost bad_record 4 w_closed); [reflexivity | lia].
Defined.

Lemma byte_val_range (b : byte) : (0 <= byte_val b < 256)%Z.
Proof.
  unfold byte_val. pose proof (Byte.to_N_bounded b). lia.
Qed.

Lemma u16le_range lo hi : uint16 (u16le lo hi).
Proof.
  unfold uint16, u16le.
  pose proof (byte_val_range lo). pose proof (byte_val_range hi). lia.
Qed.

Lemma decode_in_range (data : Buffer) : Forall sample_in_range (decode data).
Proof.
  induction data as [l Hl|b0 b1 b2 b3 b4 b5 b6 b7 b8 rest IH] using chunk9_ind.
  - rewrite decode_short by done. constructor.
  - destruct (decode_step b0 b1 b2 b3 b4 b5 b6 b7 b8 rest) as (e & He & _ & ->).
    constructor; [|done].
    unfold decode_window in He. destruct (_ =? _)%Z; injection He as <-;
      simpl; [|done].
    split; [done|].
    apply List.Forall_cons; [apply u16le_range|].
    apply List.Forall_cons; [apply u16le_range|].
    apply List.Forall_cons; [apply u16le_range|].
    apply List.Forall_cons; [apply u16le_range|].
    apply List.Forall_nil.
Qed.

(** X3. Whether the decoder returns or raises, what it has added to the
    trace is a run of events in which every sample holds four values, each
    an unsigned 16-bit integer. *)
Theorem samples_are_four_uint16 (data : Buffer) (w : World) :
  exists evs : list Event,
    snd (_onRawData data w) = traced (Emit <$> evs) w
    /\ Forall sample_in_range evs.
Proof.
  destruct (onRawData_appends data w) as (evs & Hsnd & [rest Hpre] & _).
  exists evs. split; [done|].
  pose proof (decode_in_range data) as H. rewrite Hpre in H.
  by apply Forall_app in H as [H _].
Qed.

Lemma emitted_emits (l : list Event) : emitted (Emit <$> l) = l.
Proof.
  induction l as [|e l IH]; [done|]. unfold emitted in *. cbn. by rewrite IH.
Qed.

(** X4. The ['data'] listener of the endpoint emits ['rawdata'] with the
    buffer itself, then what the decoder emits: the first of what the buffer
    decodes to.  When the session has an ['error'] listener, or every full
    record passes its checksum, that is all of it and the listener returns:
    one event more than the full records of the buffer. *)
Theorem incoming_buffer_is_announced_first (data : Buffer) (w : World) :
  (exists evs,
      snd (incomingData data w)
      = traced (Emit (EvRawData data) :: (Emit <$> evs)) w
      /\ evs `prefix_of` decode data
      /\ fst (incomingData data w) = fst (_onRawData data w))
  /\ (errorListener w = true \/ checksums_ok data = true ->
      incomingData data w
      = (Ret tt, traced (Emit (EvRawData data) :: (Emit <$> decode data)) w)
      /\ length (emitted (trace (snd (incomingData data w))))
         = length (emitted (trace w)) + 1 + length data / 9).
Proof.
  assert (Hraw : incomingData data w
                 = _onRawData data (traced [Emit (EvRawData data)] w)).
  { unfold incomingData.
    by rewrite (bind_Ret _ _ _ _ _
                  (emit_traced (EvRawData data) w (or_introl eq_refl))). }
  split.
  - destruct (onRawData_appends data (traced [Emit (EvRawData data)] w))
      as (evs & Hsnd & Hpre & _).
    exists evs. rewrite Hraw, Hsnd, traced_traced. split; [done|].
    split; [done|].
    rewrite !onRawData_emits.
    destruct (errorListener w) eqn:Hl.
    + by rewrite !emit_all_listening by (by left).
    + by rewrite !emit_all_unheard by done.
  - intros H. rewrite Hraw, onRawData_decode by done.
    rewrite traced_traced. split; [done|].
    cbn [snd traced trace]. rewrite emitted_app, length_app.
    cbn [emitted omap list_omap app option_bind mbind].
    fold (emitted (Emit <$> decode data)). rewrite emitted_emits.
    cbn [length]. rewrite decode_length. lia.
Qed.

Lemma incoming_buffer_is_announced_first_witness :
  incomingData (bad_record ++ good_record) w_listening
  = (Ret tt,
     traced (Emit (EvRawData (bad_record ++ good_record))
             :: (Emit <$> decode (bad_record ++ good_record))) w_listening)
  /\ length (emitted (trace (snd (incomingData (bad_record ++ good_record)
                                    w_listening))))
     = length (emitted (trace w_listening)) + 1
       + length (bad_record ++ good_record) / 9.
Proof.
  apply (proj2 (incoming_buffer_is_announced_first
                  (bad_record ++ good_record) w_listening)).
  left. reflexivity.
Defined.

(** X5. The decoder of the earlier revision does what the current one does on
    a buffer of whole records.  On any other buffer it runs as the current
    one and, where that one would return, raises [RangeError]: with an
    ['error'] listener or good records, after the results of the full
    records; without a listener, a bad record raises its checksum error
    first, as in the current decoder. *)
Theorem earlier_decoder_raises_on_short_tail (data : Buffer) (w : World) :
  (length data mod 9 = 0 -> onRawData data w = _onRawData data w)
  /\ (length data mod 9 <> 0 ->
      onRawData data w
      = match _onRawData data w with
        | (Ret _, w') => (Throw (RangeError "Index out of range"), w')
        | raised => raised
        end)
  /\ (length data mod 9 <> 0 ->
      errorListener w = true \/ checksums_ok data = true ->
      onRawData data w
      = (Throw (RangeError "Index out of range"),
         traced (Emit <$> decode data) w)).
Proof.
  split; [apply onRawData_whole_records|]. split.
  - intros Hm. rewrite onRawData_short_tail by done. unfold bind.
    by destruct (_onRawData data w) as [[[]|?|?|] w'].
  - intros Hm H. rewrite onRawData_short_tail by done. unfold bind.
    by rewrite onRawData_decode.
Qed.

Lemma earlier_decoder_raises_on_short_tail_witness :
  onRawData good_record w_closed = _onRawData good_record w_closed
  /\ onRawData (good_record ++ [x07; x08]%byte) w_closed
     = (Throw (RangeError "Index out of range"),
        traced (Emit <$> decode (good_record ++ [x07; x08]%byte)) w_closed)
  /\ onRawData (bad_record ++ [x07; x08]%byte) w_closed
     = match _onRawData (bad_record ++ [x07; x08]%byte) w_closed with
       | (Ret _, w') => (Throw (RangeError "Index out of range"), w')
       | raised => raised
       end.
Proof.
  split; [|split].
  - apply (proj1 (earlier_decoder_raises_on_short_tail good_record w_closed)).
    reflexivity.
  - apply (proj2 (proj2 (earlier_decoder_raises_on_short_tail
                           (good_record ++ [x07; x08]%byte) w_closed)));
      [discriminate | right; reflexivity].
  - apply (proj1 (proj2 (earlier_decoder_raises_on_short_tail
                           (bad_record ++ [x07; x08]%byte) w_closed))).
    discriminate.
Defined.

(* ================================================================== *)
(** ** Proofs: what the methods cannot undo *)

Ltac js_unfold :=
  cbv beta iota zeta delta
    [settled loop turn idle detached try_catch complete invoke close stop start
     open request isKernelDriverActive usb callbackError emitOnce
     emitOnce_with call_user _onDisconnect endpointError
     bind ret throw this modify log emit unhandled on_error
     removeAllListeners_error nextTick truthy is_function callable
     set_isOpen set_isRunning set_isConnected set_iface_ctl set_iface_data
     set_endpoint_ctl set_endpoint_dataIn set_endpoint_dataOut
     traced ticked updated refused refusal called_back
     self trace ticks inflight errorListener
     _device _isOpen _isRunning _isConnected _iface_ctl _iface_data
     _endpoint_ctl _endpoint_dataIn _endpoint_dataOut
     negb orb andb fst snd].

Section Keeps.
Context (P : PenDaq -> Prop).

Lemma keeps_ret {A} (a : A) : keeps P (ret a).
Proof. by intros w. Qed.

Lemma keeps_throw {A} e : keeps P (@throw A e).
Proof. by intros w. Qed.

Lemma keeps_this : keeps P this.
Proof. by intros w. Qed.

Lemma keeps_log a : keeps P (log a).
Proof. by intros w. Qed.

Lemma keeps_emit e : keeps P (emit e).
Proof. intros w Hw. by rewrite (proj1 (emit_frame e w)). Qed.

Lemma keeps_on_error : keeps P on_error.
Proof. by intros w. Qed.

Lemma keeps_removeAllListeners_error : keeps P removeAllListeners_error.
Proof. by intros w. Qed.

Lemma keeps_nextTick cb arg : keeps P (nextTick cb arg).
Proof. by intros w. Qed.

Lemma keeps_modify f : (forall p, P p -> P (f p)) -> keeps P (modify f).
Proof. intros Hf w Hw. by apply Hf. Qed.

Lemma keeps_bind {A B} (m : M A) (k : A -> M B) :
  keeps P m -> (forall a, keeps P (k a)) -> keeps P (bind m k).
Proof.
  intros Hm Hk w Hw. unfold bind. specialize (Hm w Hw).
  destruct (m w) as [[a|e|e|] w']; simpl in *; try done.
  by apply Hk.
Qed.

Lemma keeps_try_catch {A} (m : M A) (h : Err -> M A) :
  keeps P m -> (forall e, keeps P (h e)) -> keeps P (try_catch m h).
Proof.
  intros Hm Hh w Hw. unfold try_catch. specialize (Hm w Hw).
  destruct (m w) as [[a|e|e|] w']; simpl in *; try done.
  by apply Hh.
Qed.

Lemma keeps_detached {A} (m : M A) : keeps P m -> keeps P (detached m).
Proof.
  intros Hm w Hw. unfold detached. specialize (Hm w Hw).
  by destruct (m w) as [[a|e|e|] w'].
Qed.

Lemma keeps_if {A} (b : bool) (m1 m2 : M A) :
  keeps P m1 -> keeps P m2 -> keeps P (if b then m1 else m2).
Proof. by destruct b. Qed.

Lemma keeps_call_user f arg : keeps P (call_user f arg).
Proof. destruct f; [apply keeps_ret | apply keeps_log]. Qed.

Lemma keeps_emitOnce evt f : keeps P (emitOnce evt f).
Proof.
  apply keeps_bind; [apply keeps_emit|]. intros _.
  apply keeps_if; [apply keeps_call_user | apply keeps_ret].
Qed.

Lemma keeps_callbackError test cb arg with_self :
  keeps P (callbackError test cb arg with_self).
Proof.
  unfold callbackError. apply keeps_if; [|apply keeps_ret].
  apply keeps_bind; [apply keeps_if; [apply keeps_nextTick|apply keeps_ret]|].
  intros _. apply keeps_bind; [|intros _; apply keeps_ret].
  apply keeps_if; [apply keeps_emit|apply keeps_ret].
Qed.

Lemma keeps_parse_record data i : keeps P (parse_record data i).
Proof.
  intros w Hw. unfold parse_record, bind, readUInt16LE, readUInt8.
  repeat (match goal with
          | |- context [match ?l !! ?i with _ => _ end] => destruct (l !! i)
          | |- context [if ?b then _ else _] => destruct b
          end; simpl; try done).
Qed.

Lemma keeps_parse_from fuel : forall data i, keeps P (parse_from fuel data i).
Proof.
  induction fuel as [|fuel IH]; intros data i; simpl; [by intros w|].
  apply keeps_if; [apply keeps_ret|].
  apply keeps_if; [apply keeps_ret|].
  apply keeps_bind; [apply keeps_parse_record | intros i'; apply IH].
Qed.

Lemma keeps_onRawData data : keeps P (_onRawData data).
Proof. apply keeps_parse_from. Qed.

Lemma keeps_incomingData data : keeps P (incomingData data).
Proof.
  apply keeps_bind; [apply keeps_emit | intros _; apply keeps_onRawData].
Qed.

Section WithTransport.
Context {T : Transport}.

Lemma keeps_usb c : keeps P (usb c).
Proof. intros w Hw. unfold usb. by destruct (throws _ _). Qed.

Lemma keeps_isKernelDriverActive i : keeps P (isKernelDriverActive i).
Proof. apply keeps_bind; [apply keeps_usb | by intros _ w]. Qed.

Lemma keeps_request c k : keeps P (request c k).
Proof. apply keeps_bind; [apply keeps_usb | by intros _ w]. Qed.

(** The assignments of [open], [close], [start] and [stop] keep [P]. *)
Context (P_isOpen : forall b p, P p -> P (set_isOpen b p)).
Context (P_isRunning : forall b p, P p -> P (set_isRunning b p)).
Context (P_iface_ctl : forall h p, P p -> P (set_iface_ctl h p)).
Context (P_iface_data : forall h p, P p -> P (set_iface_data h p)).
Context (P_endpoint_ctl : forall h p, P p -> P (set_endpoint_ctl h p)).
Context (P_endpoint_dataIn : forall h p, P p -> P (set_endpoint_dataIn h p)).
Context (P_endpoint_dataOut : forall h p, P p -> P (set_endpoint_dataOut h p)).

Ltac keeps_step :=
  first
    [ apply keeps_ret | apply keeps_this | apply keeps_emit
    | apply keeps_usb | apply keeps_request | apply keeps_emitOnce
    | apply keeps_isKernelDriverActive | apply keeps_callbackError
    | apply keeps_call_user
    | apply keeps_modify; solve [auto]
    | apply keeps_if
    | apply keeps_try_catch; [|intros ?]
    | apply keeps_bind; [|intros ?] ].

Lemma keeps_open cb : keeps P (open cb).
Proof. unfold open. repeat keeps_step. Qed.

Lemma keeps_start cb : keeps P (start cb).
Proof. unfold start. repeat keeps_step. Qed.

Lemma keeps_stop cb : keeps P (stop cb).
Proof. unfold stop. repeat keeps_step. Qed.

Lemma keeps_close cb : keeps P (close cb).
Proof. unfold close. repeat keeps_step; apply keeps_stop. Qed.

Lemma keeps_invoke cb arg : keeps P (invoke cb arg).
Proof. destruct cb; simpl; repeat keeps_step; apply keeps_close. Qed.

Lemma keeps_complete k err : keeps P (complete k err).
Proof.
  destruct k; simpl; repeat keeps_step.
  unfold emitOnce_with. repeat keeps_step. apply keeps_invoke.
Qed.

Lemma keeps_turn : keeps P turn.
Proof.
  intros w Hw. unfold turn.
  destruct (ticks w) as [|[cb arg] q].
  - destruct (inflight w) as [|[c k] q]; [done|].
    by apply (keeps_detached _ (keeps_complete k _)).
  - by apply (keeps_detached _ (keeps_invoke cb arg)).
Qed.

Lemma keeps_loop fuel : keeps P (loop fuel).
Proof.
  induction fuel as [|fuel IH]; intros w Hw; simpl;
    destruct (idle w); try done.
  by apply (keeps_bind _ _ keeps_turn (fun _ => IH)).
Qed.

End WithTransport.
End Keeps.

(* ================================================================== *)
(** ** Proofs: the ['error'] listeners are the user's *)

Lemma steady_ret {A} (a : A) : steady (ret a).
Proof. by intros w. Qed.

Lemma steady_this : steady this.
Proof. by intros w. Qed.

Lemma steady_log a : steady (log a).
Proof. by intros w. Qed.

Lemma steady_emit e : steady (emit e).
Proof. intros w. apply emit_frame. Qed.

Lemma steady_nextTick cb arg : steady (nextTick cb arg).
Proof. by intros w. Qed.

Lemma steady_modify f : steady (modify f).
Proof. by intros w. Qed.

Lemma steady_bind {A B} (m : M A) (k : A -> M B) :
  steady m -> (forall a, steady (k a)) -> steady (bind m k).
Proof.
  intros Hm Hk w. unfold bind. specialize (Hm w).
  destruct (m w) as [[a|e|e|] w']; simpl in *; try done.
  by rewrite Hk.
Qed.

Lemma steady_try_catch {A} (m : M A) (h : Err -> M A) :
  steady m -> (forall e, steady (h e)) -> steady (try_catch m h).
Proof.
  intros Hm Hh w. unfold try_catch. specialize (Hm w).
  destruct (m w) as [[a|e|e|] w']; simpl in *; try done.
  by rewrite Hh.
Qed.

Lemma steady_detached {A} (m : M A) : steady m -> steady (detached m).
Proof.
  intros Hm w. unfold detached. specialize (Hm w).
  by destruct (m w) as [[a|e|e|] w'].
Qed.

Lemma steady_if {A} (b : bool) (m1 m2 : M A) :
  steady m1 -> steady m2 -> steady (if b then m1 else m2).
Proof. by destruct b. Qed.

Lemma steady_call_user f arg : steady (call_user f arg).
Proof. destruct f; [apply steady_ret | apply steady_log]. Qed.

Lemma steady_emitOnce evt f : steady (emitOnce evt f).
Proof.
  apply steady_bind; [apply steady_emit|]. intros _.
  apply steady_if; [apply steady_call_user | apply steady_ret].
Qed.

Lemma steady_callbackError test cb arg with_self :
  steady (callbackError test cb arg with_self).
Proof.
  unfold callbackError. apply steady_if; [|apply steady_ret].
  apply steady_bind; [apply steady_if; [apply steady_nextTick|apply steady_ret]|].
  intros _. apply steady_bind; [|intros _; apply steady_ret].
  apply steady_if; [apply steady_emit|apply steady_ret].
Qed.

Lemma steady_onRawData data : steady (_onRawData data).
Proof.
  intros w. by destruct (onRawData_appends data w) as (evs & -> & _).
Qed.

Lemma steady_incomingData data : steady (incomingData data).
Proof.
  apply steady_bind; [apply steady_emit | intros _; apply steady_onRawData].
Qed.

Section SteadyWithTransport.
Context {T : Transport}.

Lemma steady_usb c : steady (usb c).
Proof. intros w. unfold usb. by destruct (throws _ _). Qed.

Lemma steady_isKernelDriverActive i : steady (isKernelDriverActive i).
Proof. apply steady_bind; [apply steady_usb | by intros _ w]. Qed.

Lemma steady_request c k : steady (request c k).
Proof. apply steady_bind; [apply steady_usb | by intros _ w]. Qed.

Ltac steady_step :=
  first
    [ apply steady_ret | apply steady_this | apply steady_emit
    | apply steady_usb | apply steady_request | apply steady_emitOnce
    | apply steady_isKernelDriverActive | apply steady_callbackError
    | apply steady_call_user | apply steady_modify
    | apply steady_if
    | apply steady_try_catch; [|intros ?]
    | apply steady_bind; [|intros ?] ].

Lemma steady_open cb : steady (open cb).
Proof. unfold open. repeat steady_step. Qed.

Lemma steady_start cb : steady (start cb).
Proof. unfold start. repeat steady_step. Qed.

Lemma steady_stop cb : steady (stop cb).
Proof. unfold stop. repeat steady_step. Qed.

Lemma steady_close cb : steady (close cb).
Proof. unfold close. repeat steady_step; apply steady_stop. Qed.

Lemma steady_invoke cb arg : steady (invoke cb arg).
Proof. destruct cb; simpl; repeat steady_step; apply steady_close. Qed.

Lemma steady_complete k err : steady (complete k err).
Proof.
  destruct k; simpl; repeat steady_step.
  unfold emitOnce_with. repeat steady_step. apply steady_invoke.
Qed.

Lemma steady_turn : steady turn.
Proof.
  intros w. unfold turn.
  destruct (ticks w) as [|[cb arg] q].
  - destruct (inflight w) as [|[c k] q]; [done|].
    by rewrite (steady_detached _ (steady_complete k _)).
  - by rewrite (steady_detached _ (steady_invoke cb arg)).
Qed.

End SteadyWithTransport.

(* ================================================================== *)
(** ** Proofs: the session *)

Ltac js_run :=
  repeat
    (progress
       (js_unfold; cbn [app];
        try match goal with
            | H : forall h c, throws h c = None |- _ => rewrite !H
            end;
        try match goal with
            | H : forall h c, fails h c = None |- _ => rewrite !H
            end)).

Lemma ticked_nil w : ticked [] w = w.
Proof. destruct w; unfold ticked; simpl. by rewrite app_nil_r. Qed.

Lemma open_noop {T : Transport} cb w :
  _isOpen (self w) = true \/ _isConnected (self w) = false ->
  open cb w = (Ret tt, w).
Proof.
  destruct w as [[dev o r c ic id ec ei eo] tr tk inf el]; simpl.
  intros [-> | ->]; [|destruct o]; reflexivity.
Qed.

Lemma start_refused {T : Transport} cb w :
  _isConnected (self w) = false ->
  start cb w = (Ret tt, refused (Caller cb) (refusal (self w)) w).
Proof.
  intros Hc. destruct cb.
  - unfold refused. simpl. rewrite ticked_nil.
    destruct w as [[dev o r c ic id ec ei eo] tr tk inf el]; simpl in *.
    subst c. by destruct o.
  - destruct w as [[dev o r c ic id ec ei eo] tr tk inf el]; simpl in *.
    subst c. by destruct o.
Qed.

Lemma stop_refused {T : Transport} cb w :
  _isConnected (self w) = false ->
  stop cb w = (Ret tt, refused cb (refusal (self w)) w).
Proof.
  intros Hc. destruct cb as [[|name]|f].
  - unfold refused. simpl. rewrite ticked_nil.
    destruct w as [[dev o r c ic id ec ei eo] tr tk inf el]; simpl in *.
    subst c. by destruct o.
  - destruct w as [[dev o r c ic id ec ei eo] tr tk inf el]; simpl in *.
    subst c. by destruct o.
  - destruct w as [[dev o r c ic id ec ei eo] tr tk inf el]; simpl in *.
    subst c. by destruct o.
Qed.

Lemma close_not_connected {T : Transport} cb w :
  _isOpen (self w) = false \/ _isConnected (self w) = false ->
  close cb w = (Ret tt, traced (Emit EvClose :: called_back cb None) w).
Proof.
  destruct w as [[dev o r c ic id ec ei eo] tr tk inf el]; simpl.
  intros [-> | ->]; [|destruct o]; destruct cb; unfold close; js_unfold;
    rewrite <- ?app_assoc; reflexivity.
Qed.

(** The queued callback of a refused call is run by the next turn. *)
Lemma refused_settles {T : Transport} (cb : UserCb) e w n :
  ticks w = [] -> inflight w = [] -> 1 <= n ->
  loop n (refused (Caller cb) e w)
  = (Ret tt, traced (called_back cb (Some e)) w).
Proof.
  destruct w as [p tr tk inf el]; simpl. intros -> -> Hn.
  destruct n as [|n]; [lia|].
  destruct cb; unfold refused, ticked; simpl.
  - destruct n; unfold traced; simpl; by rewrite app_nil_r.
  - destruct n; reflexivity.
Qed.

(** C4, as the code has it.  On a session whose [_isConnected] is false:
    [open] returns at once and reports nothing; [start] and [stop] leave the
    session object, the trace and the requests in flight as they were (no
    state change, no control transfer, no event) and queue their callback,
    when it is a function, with [NotConnected] if the session is open and
    [NotOpen] if it is closed, which the next turn delivers; [close] emits
    ['close'] and calls its callback without touching the USB stack. *)
Theorem disconnected_session_guards {T : Transport} (w : World) (cb : UserCb) :
  _isConnected (self w) = false ->
  open cb w = (Ret tt, w)
  /\ start cb w = (Ret tt, refused (Caller cb) (refusal (self w)) w)
  /\ stop (Caller cb) w = (Ret tt, refused (Caller cb) (refusal (self w)) w)
  /\ (_isOpen (self w) = true -> refusal (self w) = NotConnected)
  /\ (_isOpen (self w) = false -> refusal (self w) = NotOpen)
  /\ (idle w = true -> forall n, 1 <= n ->
        settled n (start cb) w
        = (Ret tt, traced (called_back cb (Some (refusal (self w)))) w)
        /\ settled n (stop (Caller cb)) w
           = (Ret tt, traced (called_back cb (Some (refusal (self w)))) w))
  /\ close cb w = (Ret tt, traced (Emit EvClose :: called_back cb None) w).
Proof.
  intros Hc.
  split; [apply open_noop; by right|].
  split; [by apply start_refused|].
  split; [by apply stop_refused|].
  split; [unfold refusal; by intros ->|].
  split; [unfold refusal; by intros ->|].
  split; [|apply close_not_connected; by right].
  intros Hi n Hn.
  assert (ticks w = [] /\ inflight w = []) as [Ht Hf].
  { unfold idle in Hi. destruct (ticks w); [destruct (inflight w)|]; done. }
  unfold settled. split.
  - rewrite (bind_Ret _ _ _ _ _ (start_refused cb w Hc)).
    by apply refused_settles.
  - rewrite (bind_Ret _ _ _ _ _ (stop_refused (Caller cb) w Hc)).
    by apply refused_settles.
Qed.

Lemma disconnected_session_guards_witness :
  open (T := ideal_usb) (Fn "cb") w_unplugged = (Ret tt, w_unplugged)
  /\ start (T := ideal_usb) (Fn "cb") w_unplugged
     = (Ret tt, refused (Caller (Fn "cb")) NotConnected w_unplugged)
  /\ start (T := ideal_usb) (Fn "cb") w_closed_unplugged
     = (Ret tt, refused (Caller (Fn "cb")) NotOpen w_closed_unplugged).
Proof.
  split; [|split].
  - apply (disconnected_session_guards (T := ideal_usb) w_unplugged (Fn "cb")).
    reflexivity.
  - apply (disconnected_session_guards (T := ideal_usb) w_unplugged (Fn "cb")).
    reflexivity.
  - apply (disconnected_session_guards (T := ideal_usb) w_closed_unplugged
             (Fn "cb")).
    reflexivity.
Defined.

(** C4 as stated fails: [open] on an unplugged session reports no
    [NotConnected], neither by an ['error'] event nor to its callback; and
    [start] on an unplugged session that was never opened reports [NotOpen]. *)
Lemma open_while_disconnected_reports_nothing :
  _isConnected (self w_closed_unplugged) = false
  /\ settled (T := ideal_usb) 4 (open (T := ideal_usb) (Fn "cb"))
       w_closed_unplugged
     = (Ret tt, w_closed_unplugged)
  /\ ~ reported NotConnected
         (trace (snd (settled (T := ideal_usb) 4
                        (open (T := ideal_usb) (Fn "cb")) w_closed_unplugged)))
  /\ ~ reported NotConnected
         (trace (snd (settled (T := ideal_usb) 4
                        (start (T := ideal_usb) (Fn "cb")) w_closed_unplugged))).
Proof.
  split; [reflexivity|]. split; [reflexivity|]. split.
  - intros [H|[name H]]; vm_compute in H;
      apply list_elem_of_singleton in H; discriminate.
  - intros [H|[name H]]; vm_compute in H;
      apply elem_of_cons in H as [H|H];
      try discriminate; apply list_elem_of_singleton in H; discriminate.
Qed.

Lemma run_op_isConnected {T : Transport} (o : Op) (w : World) :
  _isConnected (self (snd (run_op o w)))
  = match o with
    | OpDisconnect => false
    | _ => _isConnected (self w)
    end.
Proof.
  set (P := fun p => _isConnected p = _isConnected (self w)).
  destruct o; simpl; try reflexivity.
  - by apply (keeps_open P).
  - by apply (keeps_close P).
  - by apply (keeps_start P).
  - by apply (keeps_stop P).
  - by apply (keeps_incomingData P).
  - by apply (keeps_turn P).
  - by apply (keeps_emit P).
Qed.

Lemma run_ops_disconnected {T : Transport} (ops : list Op) : forall w,
  _isConnected (self w) = false ->
  _isConnected (self (run_ops ops w)) = false.
Proof.
  induction ops as [|o ops IH]; intros w Hw; [done|].
  simpl. apply IH. rewrite run_op_isConnected. by destruct o.
Qed.

(** C10. [_isConnected] is true in a new session; no method call, buffer or
    turn of the loop changes it, and [_onDisconnect] makes it false; so after
    [_onDisconnect] and any run of operations it is false, and [start] and
    [stop] are refused: nothing changes but the callback queued with the
    error. *)
Theorem disconnection_is_permanent {T : Transport}
    (d : UsbDevice) (w : World) (ops : list Op) (cb : UserCb) :
  _isConnected (PenDaq_init d) = true
  /\ (forall o w0,
        _isConnected (self (snd (run_op o w0)))
        = match o with
          | OpDisconnect => false
          | _ => _isConnected (self w0)
          end)
  /\ _isConnected (self (run_ops ops (snd (_onDisconnect w)))) = false
  /\ start cb (run_ops ops (snd (_onDisconnect w)))
     = (Ret tt,
        refused (Caller cb)
          (refusal (self (run_ops ops (snd (_onDisconnect w)))))
          (run_ops ops (snd (_onDisconnect w))))
  /\ stop (Caller cb) (run_ops ops (snd (_onDisconnect w)))
     = (Ret tt,
        refused (Caller cb)
          (refusal (self (run_ops ops (snd (_onDisconnect w)))))
          (run_ops ops (snd (_onDisconnect w)))).
Proof.
  assert (H : _isConnected (self (run_ops ops (snd (_onDisconnect w)))) = false)
    by (by apply run_ops_disconnected).
  split; [reflexivity|]. split; [apply run_op_isConnected|].
  split; [exact H|]. split; [by apply start_refused | by apply stop_refused].
Qed.


Lemma ideal_usb_sound : sound_usb ideal_usb.
Proof. split; intros; reflexivity. Qed.



(** C8. [open] on a session that is already open returns at once and leaves
    the whole world as it was: no event, no error, no callback, no state
    change.  So when a first [open] goes through, on a closed and connected
    session with a USB stack that raises nothing, a second [open] right
    after it adds nothing: the two calls emit ['open'] once. *)
Theorem open_is_idempotent {T : Transport} (w : World) (cb cb' : UserCb) :
  (_isOpen (self w) = true -> open cb w = (Ret tt, w))
  /\ ((forall h c, throws h c = None) ->
      _isOpen (self w) = false ->
      _isConnected (self w) = true ->
      (open cb ;; open cb') w = open cb w
      /\ fst (open cb w) = Ret tt
      /\ _isOpen (self (snd (open cb w))) = true
      /\ emitted (trace (snd ((open cb ;; open cb') w)))
         = emitted (trace w) ++ [EvOpen]).
Proof.
  split; [intros Ho; apply open_noop; by left|].
  intros Hth Ho Hc.
  assert (Hrun : exists w', open cb w = (Ret tt, w')
                            /\ _isOpen (self w') = true
                            /\ emitted (trace w') = emitted (trace w) ++ [EvOpen]).
  { destruct w as [[dev o r c ic id ec ei eo] tr tk inf el]; simpl in *. subst.
    unfold open. js_run.
    destruct linux;
      [ js_run;
        match goal with
        | |- context [kernelDriverActive ?h] => destruct (kernelDriverActive h)
        end
      | ];
      js_run; destruct cb; js_run; eexists;
      (split; [reflexivity|]); (split; [reflexivity|]);
      cbn [trace]; rewrite !emitted_app; cbn;
      rewrite <- !app_assoc, ?app_nil_r; reflexivity. }
  destruct Hrun as (w' & Hw' & Ho' & He).
  rewrite (bind_Ret _ _ _ _ _ Hw'), Hw'. simpl.
  rewrite (open_noop cb' w') by (by left).
  auto.
Qed.

Lemma open_is_idempotent_witness :
  (open (T := ideal_usb) (Fn "cb") w_open = (Ret tt, w_open))
  /\ emitted (trace (snd ((open (T := ideal_usb) (Fn "cb") ;;
                           open (T := ideal_usb) (Fn "cb2")) w_closed)))
     = emitted (trace w_closed) ++ [EvOpen].
Proof.
  split.
  - apply (proj1 (open_is_idempotent (T := ideal_usb) w_open (Fn "cb")
                    (Fn "cb"))).
    reflexivity.
  - apply (proj2 (open_is_idempotent (T := ideal_usb) w_closed (Fn "cb")
                    (Fn "cb2")));
      [intros; reflexivity | reflexivity | reflexivity].
Defined.

(* ================================================================== *)
(** ** More on the session *)

Lemma invoked_app a b : invoked (a ++ b) = invoked a ++ invoked b.
Proof. apply omap_app. Qed.

Ltac js_oracle :=
  match goal with
  | |- context [match throws ?h ?c with _ => _ end] =>
      destruct (throws h c) eqn:?
  | |- context [match fails ?h ?c with _ => _ end] =>
      destruct (fails h c) eqn:?
  | |- context [if linux then _ else _] => destruct linux eqn:?
  | |- context [kernelDriverActive ?h] =>
      destruct (kernelDriverActive h) eqn:?
  | |- context [match ?cb with NotAFunction => _ | Fn _ => _ end] =>
      is_var cb; destruct cb
  | |- context [if ?b then _ else _] => is_var b; destruct b
  end.

Ltac js_explore := repeat (js_run; try js_oracle); js_run.

Lemma loop_more {T : Transport} n : forall w o w',
  loop n w = (o, w') -> o <> OutOfFuel -> loop (S n) w = (o, w').
Proof.
  induction n as [|n IH]; intros w o w' H Ho.
  - simpl in *. destruct (idle w); [done|]. by injection H as <- <-.
  - change (loop (S (S n)) w)
      with (if idle w then (Ret tt, w) else (turn ;; loop (S n)) w).
    change (loop (S n) w)
      with (if idle w then (Ret tt, w) else (turn ;; loop n) w) in H.
    destruct (idle w); [done|].
    unfold bind in *. destruct (turn w) as [[[]|e|e|] w1]; try done.
    by apply IH.
Qed.

(** More fuel than a call needs changes nothing. *)
Lemma settled_more {T : Transport} (m : M unit) w k : forall n,
  k <= n ->
  fst (settled k m w) <> OutOfFuel -> settled n m w = settled k m w.
Proof.
  intros n Hn Hk. induction Hn as [|n Hn IH]; [done|].
  rewrite <- IH. rewrite <- IH in Hk.
  unfold settled, bind in *. destruct (m w) as [[[]|e|e|] w1]; try done.
  destruct (loop n w1) as [o w'] eqn:E. by apply loop_more.
Qed.

Ltac js_trace :=
  repeat rewrite emitted_app; repeat rewrite invoked_app;
  cbn [emitted invoked omap list_omap mbind option_bind];
  rewrite <- ?app_assoc; cbn [app]; rewrite ?app_nil_r.

Lemma idle_empty w : idle w = true -> ticks w = [] /\ inflight w = [].
Proof.
  unfold idle. destruct (ticks w); [destruct (inflight w)|]; done.
Qed.

(** X6. What [start] does on an open, connected session at rest, running or
    not.  If the control transfer raises, [start] raises it to the caller.
    If the request completes without error, [_isRunning] becomes true,
    ['start'] is emitted and the callback is called without argument.  If it
    completes with an error, [_isRunning] is left alone and the callback is
    queued with the error; then, on a session that has an ['error']
    listener, the error is emitted and the callback called with it, and on a
    session that has none the error is raised out of the completion, which
    nothing catches, with the callback still queued. *)
Theorem start_outcomes {T : Transport} (w : World) (cb : UserCb) (n : nat) :
  _isOpen (self w) = true ->
  _isConnected (self w) = true ->
  idle w = true ->
  2 <= n ->
  settled n (start cb) w
  = match throws (trace w) (carrier_request 3) with
    | Some e => (Throw e, traced [Usb (carrier_request 3)] w)
    | None =>
        match fails (trace w ++ [Usb (carrier_request 3)])
                (carrier_request 3) with
        | None =>
            (Ret tt,
             updated (set_isRunning true)
               (traced ([Usb (carrier_request 3);
                         Completed (carrier_request 3) None;
                         Emit EvStart] ++ called_back cb None) w))
        | Some e =>
            if errorListener w then
              (Ret tt,
               traced ([Usb (carrier_request 3);
                        Completed (carrier_request 3) (Some e);
                        Emit (EvError (Some e))]
                       ++ called_back cb (Some e)) w)
            else
              (Uncaught e,
               ticked (if is_function cb then [(Caller cb, Some e)] else [])
                 (traced [Usb (carrier_request 3);
                          Completed (carrier_request 3) (Some e)] w))
        end
    end.
Proof.
  intros Ho Hc Hi Hn. apply idle_empty in Hi as [Ht Hf].
  destruct w as [[dev o r c ic id ec ei eo] tr tk inf el]; simpl in *. subst.
  do 2 (destruct n as [|n]; [lia|]).
  unfold carrier_request.
  destruct (throws tr _) eqn:Hth.
  - js_run. rewrite Hth. reflexivity.
  - destruct (fails _ _) eqn:Hfl.
    + destruct n, cb, el; js_run; rewrite Hth; js_run; rewrite Hfl; js_run;
        rewrite <- ?app_assoc; reflexivity.
    + destruct n, cb; js_run; rewrite Hth; js_run; rewrite Hfl; js_run;
        rewrite <- ?app_assoc; reflexivity.
Qed.

(** A start that goes through, and one whose request fails on a session
    nobody listens to. *)
Lemma start_outcomes_witness :
  settled (T := ideal_usb) 2 (start (T := ideal_usb) (Fn "cb")) w_open
  = (Ret tt,
     updated (set_isRunning true)
       (traced [Usb (carrier_request 3);
                Completed (carrier_request 3) None;
                Emit EvStart; Invoke "cb" None] w_open))
  /\ settled (T := stalling_usb) 2 (start (T := stalling_usb) (Fn "cb")) w_open
     = (Uncaught (UsbError 4),
        ticked [(Caller (Fn "cb"), Some (UsbError 4))]
          (traced [Usb (carrier_request 3);
                   Completed (carrier_request 3) (Some (UsbError 4))] w_open)).
Proof.
  split.
  - apply (start_outcomes (T := ideal_usb) w_open (Fn "cb") 2);
      [reflexivity | reflexivity | reflexivity | lia].
  - apply (start_outcomes (T := stalling_usb) w_open (Fn "cb") 2);
      [reflexivity | reflexivity | reflexivity | lia].
Defined.

(** X7. What [stop] does on an open, connected session at rest, running or
    not: as [start], with the carrier value 0, ['stop'] and [_isRunning]
    false; a request that completes with an error is emitted as ['error'] on
    a session that listens and raised out of the completion on one that does
    not. *)
Theorem stop_outcomes {T : Transport} (w : World) (cb : UserCb) (n : nat) :
  _isOpen (self w) = true ->
  _isConnected (self w) = true ->
  idle w = true ->
  2 <= n ->
  settled n (stop (Caller cb)) w
  = match throws (trace w) (carrier_request 0) with
    | Some e => (Throw e, traced [Usb (carrier_request 0)] w)
    | None =>
        match fails (trace w ++ [Usb (carrier_request 0)])
                (carrier_request 0) with
        | None =>
            (Ret tt,
             updated (set_isRunning false)
               (traced ([Usb (carrier_request 0);
                         Completed (carrier_request 0) None;
                         Emit EvStop] ++ called_back cb None) w))
        | Some e =>
            if errorListener w then
              (Ret tt,
               traced ([Usb (carrier_request 0);
                        Completed (carrier_request 0) (Some e);
                        Emit (EvError (Some e))]
                       ++ called_back cb (Some e)) w)
            else
              (Uncaught e,
               ticked (if is_function cb then [(Caller cb, Some e)] else [])
                 (traced [Usb (carrier_request 0);
                          Completed (carrier_request 0) (Some e)] w))
        end
    end.
Proof.
  intros Ho Hc Hi Hn. apply idle_empty in Hi as [Ht Hf].
  destruct w as [[dev o r c ic id ec ei eo] tr tk inf el]; simpl in *. subst.
  do 2 (destruct n as [|n]; [lia|]).
  unfold carrier_request.
  destruct (throws tr _) eqn:Hth.
  - js_run. rewrite Hth. reflexivity.
  - destruct (fails _ _) eqn:Hfl.
    + destruct n, cb, el; js_run; rewrite Hth; js_run; rewrite Hfl; js_run;
        rewrite <- ?app_assoc; reflexivity.
    + destruct n, cb; js_run; rewrite Hth; js_run; rewrite Hfl; js_run;
        rewrite <- ?app_assoc; reflexivity.
Qed.

(** A failing stop request on a running session that listens, and on one
    that does not. *)
Lemma stop_outcomes_witness :
  settled (T := stalling_usb) 2 (stop (T := stalling_usb) (Caller (Fn "cb")))
    (listening w_running)
  = (Ret tt,
     traced [Usb (carrier_request 0);
             Completed (carrier_request 0) (Some (UsbError 4));
             Emit (EvError (Some (UsbError 4)));
             Invoke "cb" (Some (UsbError 4))] (listening w_running))
  /\ settled (T := stalling_usb) 2
       (stop (T := stalling_usb) (Caller (Fn "cb"))) w_running
     = (Uncaught (UsbError 4),
        ticked [(Caller (Fn "cb"), Some (UsbError 4))]
          (traced [Usb (carrier_request 0);
                   Completed (carrier_request 0) (Some (UsbError 4))]
             w_running)).
Proof.
  split.
  - apply (stop_outcomes (T := stalling_usb) (listening w_running) (Fn "cb") 2);
      [reflexivity | reflexivity | reflexivity | lia].
  - apply (stop_outcomes (T := stalling_usb) w_running (Fn "cb") 2);
      [reflexivity | reflexivity | reflexivity | lia].
Defined.

Lemma start_not_open {T : Transport} cb w :
  _isOpen (self w) = false ->
  start cb w = (Ret tt, refused (Caller cb) NotOpen w).
Proof.
  intros Ho. destruct cb.
  - unfold refused. simpl. rewrite ticked_nil.
    destruct w as [[dev o r c ic id ec ei eo] tr tk inf el]; simpl in *.
    by subst o.
  - destruct w as [[dev o r c ic id ec ei eo] tr tk inf el]; simpl in *.
    by subst o.
Qed.

Lemma stop_not_open {T : Transport} cb w :
  _isOpen (self w) = false ->
  stop (Caller cb) w = (Ret tt, refused (Caller cb) NotOpen w).
Proof.
  intros Ho. destruct cb.
  - unfold refused. simpl. rewrite ticked_nil.
    destruct w as [[dev o r c ic id ec ei eo] tr tk inf el]; simpl in *.
    by subst o.
  - destruct w as [[dev o r c ic id ec ei eo] tr tk inf el]; simpl in *.
    by subst o.
Qed.

(** X8. [start] and [stop] on a session that is not open hand [NotOpen] to
    the callback on the next tick and do nothing else: no ['error'] event, no
    USB call, no change. *)
Theorem start_before_open_tells_callback_only {T : Transport}
    (w : World) (cb : UserCb) (n : nat) :
  _isOpen (self w) = false ->
  idle w = true ->
  1 <= n ->
  settled n (start cb) w = (Ret tt, traced (called_back cb (Some NotOpen)) w)
  /\ settled n (stop (Caller cb)) w
     = (Ret tt, traced (called_back cb (Some NotOpen)) w).
Proof.
  intros Ho Hi Hn. apply idle_empty in Hi as [Ht Hf]. unfold settled. split.
  - rewrite (bind_Ret _ _ _ _ _ (start_not_open cb w Ho)).
    by apply refused_settles.
  - rewrite (bind_Ret _ _ _ _ _ (stop_not_open cb w Ho)).
    by apply refused_settles.
Qed.

Lemma start_before_open_tells_callback_only_witness :
  settled (T := ideal_usb) 1 (start (T := ideal_usb) (Fn "cb")) w_closed
  = (Ret tt, traced [Invoke "cb" (Some NotOpen)] w_closed)
  /\ settled (T := ideal_usb) 1 (stop (T := ideal_usb) (Caller (Fn "cb")))
       w_closed
     = (Ret tt, traced [Invoke "cb" (Some NotOpen)] w_closed).
Proof.
  apply (start_before_open_tells_callback_only (T := ideal_usb) w_closed
           (Fn "cb") 1);
    [reflexivity | reflexivity | lia].
Defined.

(** X9. [open] on a closed, connected session leaves [_isRunning] and the
    requests in flight alone, and ends in one of two ways.  Either it
    returns with the session open, having emitted ['open'] and called the
    callback.  Or one of its USB calls, [c] made after the history [h],
    raised [e]: the session is still closed, the callback is queued with [e]
    and not called, and [e] is emitted as ['error'] if the session has an
    ['error'] listener, else raised out of [open].  On a USB stack whose
    calls do not raise it is the first. *)
Theorem open_succeeds_or_reports {T : Transport} (w : World) (cb : UserCb) :
  _isOpen (self w) = false ->
  _isConnected (self w) = true ->
  inflight (snd (open cb w)) = inflight w
  /\ _isRunning (self (snd (open cb w))) = _isRunning (self w)
  /\ ((fst (open cb w) = Ret tt
       /\ _isOpen (self (snd (open cb w))) = true
       /\ emitted (trace (snd (open cb w))) = emitted (trace w) ++ [EvOpen]
       /\ invoked (trace (snd (open cb w)))
          = invoked (trace w) ++ called cb None
       /\ ticks (snd (open cb w)) = ticks w)
      \/ (exists h c e,
            throws h c = Some e
            /\ trace (snd (open cb w))
               = h ++ Usb c :: (if errorListener w
                                then [Emit (EvError (Some e))] else [])
            /\ fst (open cb w) = (if errorListener w then Ret tt else Throw e)
            /\ _isOpen (self (snd (open cb w))) = false
            /\ emitted (trace (snd (open cb w)))
               = emitted (trace w)
                 ++ (if errorListener w then [EvError (Some e)] else [])
            /\ invoked (trace (snd (open cb w))) = invoked (trace w)
            /\ ticks (snd (open cb w))
               = ticks w ++ (if is_function cb then [(Caller cb, Some e)]
                             else [])))
  /\ ((forall h c, throws h c = None) ->
      fst (open cb w) = Ret tt
      /\ _isOpen (self (snd (open cb w))) = true).
Proof.
  intros Ho Hc.
  destruct w as [[dev o r c ic id ec ei eo] tr tk inf el]; simpl in *. subst.
  destruct (open cb _) as [out w'] eqn:E. revert E. unfold open.
  js_explore; intros [= <- <-]; js_run; cbn [called];
    (split; [reflexivity|]); (split; [reflexivity|]);
    (split;
     [ first
         [ left; repeat split; js_trace; reflexivity
         | right; do 3 eexists; split; [eassumption|];
           repeat split; js_trace; reflexivity ]
     | intros Hall;
       first
         [ split; reflexivity
         | exfalso;
           match goal with
           | H : throws _ _ = Some _ |- _ => rewrite Hall in H; discriminate H
           end ] ]).
Qed.

(** On a USB stack that does not fail [open] goes through; on one that
    refuses to open the device, and without an ['error'] listener, it raises
    what the USB call raised. *)
Lemma open_succeeds_or_reports_witness :
  (fst (open (T := ideal_usb) (Fn "cb") w_closed) = Ret tt
   /\ _isOpen (self (snd (open (T := ideal_usb) (Fn "cb") w_closed))) = true)
  /\ exists h c e,
       throws (Transport := refusing_usb) h c = Some e
       /\ fst (open (T := refusing_usb) (Fn "cb") w_closed) = Throw e
       /\ ticks (snd (open (T := refusing_usb) (Fn "cb") w_closed))
          = [(Caller (Fn "cb"), Some e)].
Proof.
  split.
  - apply (open_succeeds_or_reports (T := ideal_usb) w_closed (Fn "cb"));
      [reflexivity | reflexivity | intros; reflexivity].
  - destruct (open_succeeds_or_reports (T := refusing_usb) w_closed (Fn "cb")
                eq_refl eq_refl) as (_ & _ & [H|H] & _).
    + destruct H as (_ & H & _). vm_compute in H. discriminate H.
    + destruct H as (h & c & e & Hth & _ & Hfst & _ & _ & _ & Htk).
      exists h, c, e. split; [exact Hth|]. split; [exact Hfst | exact Htk].
Defined.

(** X10. [close] on an open, connected session at rest that is not running
    ends, within two turns and with nothing left pending, in one of two
    ways.  Either it returns with the session closed, having emitted
    ['close'] and called the callback.  Or a release step failed with [e]: a
    USB call [c] made after the history [h] raised it, or a release request
    completed with it; the session is still open and the callback is never
    called.  The failure then shows as one ['error'] event, when the session
    has an ['error'] listener and the failure reached an [emit]; else as an
    exception, raised out of [close] or out of a completion, where nothing
    catches it.  On a USB stack that does not fail it is the first. *)
Theorem failed_close_stays_open_and_silent {T : Transport}
    (w : World) (cb : UserCb) (n : nat) :
  _isOpen (self w) = true ->
  _isRunning (self w) = false ->
  _isConnected (self w) = true ->
  idle w = true ->
  2 <= n ->
  idle (snd (settled n (close cb) w)) = true
  /\ ((fst (settled n (close cb) w) = Ret tt
       /\ _isOpen (self (snd (settled n (close cb) w))) = false
       /\ emitted (trace (snd (settled n (close cb) w)))
          = emitted (trace w) ++ [EvClose]
       /\ invoked (trace (snd (settled n (close cb) w)))
          = invoked (trace w) ++ called cb None)
      \/ (exists h c e shown,
            ((throws h c = Some e
              /\ trace (snd (settled n (close cb) w)) = h ++ Usb c :: shown)
             \/ (fails h c = Some e
                 /\ trace (snd (settled n (close cb) w))
                    = h ++ Completed c (Some e) :: shown))
            /\ _isOpen (self (snd (settled n (close cb) w))) = true
            /\ invoked (trace (snd (settled n (close cb) w)))
               = invoked (trace w)
            /\ emitted (trace (snd (settled n (close cb) w)))
               = emitted (trace w) ++ emitted shown
            /\ ((fst (settled n (close cb) w) = Ret tt
                 /\ errorListener w = true
                 /\ shown = [Emit (EvError (Some e))])
                \/ ((fst (settled n (close cb) w) = Throw e
                     \/ fst (settled n (close cb) w) = Uncaught e)
                    /\ shown = []))))
  /\ (sound_usb T ->
      fst (settled n (close cb) w) = Ret tt
      /\ _isOpen (self (snd (settled n (close cb) w))) = false).
Proof.
  intros Ho Hr Hc Hi Hn. apply idle_empty in Hi as [Ht Hf].
  pattern (settled n (close cb) w).
  match goal with
  | |- ?P _ =>
      cut (fst (settled 2 (close cb) w) <> OutOfFuel
           /\ P (settled 2 (close cb) w));
      [ intros [Hk HP]; by rewrite (settled_more (close cb) w 2 n Hn Hk)
      | cbv beta ]
  end.
  destruct w as [[dev o r c ic id ec ei eo] tr tk inf el]; simpl in *. subst.
  destruct (settled 2 (close cb) _) as [out w'] eqn:E. revert E.
  js_explore; intros [= <- <-]; js_run; cbn [called];
    (split; [discriminate|]); (split; [reflexivity|]);
    (split;
     [ first
         [ left; repeat split; js_trace; reflexivity
         | right; do 4 eexists;
           (split;
            [ first
                [ left; split;
                  [eassumption | rewrite <- ?app_assoc; cbn [app]; reflexivity]
                | right; split;
                  [eassumption | rewrite <- ?app_assoc; cbn [app]; reflexivity]
                ] |]);
           (split; [reflexivity|]);
           (split; [js_trace; reflexivity|]);
           (split; [js_trace; reflexivity|]);
           first
             [ left; repeat split; reflexivity
             | right; split; [left; reflexivity | reflexivity]
             | right; split; [right; reflexivity | reflexivity] ] ]
     | intros [Hth Hfl];
       first
         [ split; reflexivity
         | exfalso;
           match goal with
           | H : throws _ _ = Some _ |- _ => rewrite Hth in H; discriminate H
           | H : fails _ _ = Some _ |- _ => rewrite Hfl in H; discriminate H
           end ] ]).
Qed.

(** On a USB stack whose requests all fail, and without an ['error']
    listener, the error of the first release is raised out of its
    completion and the session stays open. *)
Lemma failed_close_stays_open_and_silent_witness :
  exists h c,
    fails (Transport := stalling_usb) h c = Some (UsbError 4)
    /\ fst (settled (T := stalling_usb) 2
              (close (T := stalling_usb) (Fn "cb")) w_open)
       = Uncaught (UsbError 4)
    /\ _isOpen (self (snd (settled (T := stalling_usb) 2
                             (close (T := stalling_usb) (Fn "cb")) w_open)))
       = true
    /\ invoked (trace (snd (settled (T := stalling_usb) 2
                              (close (T := stalling_usb) (Fn "cb")) w_open)))
       = invoked (trace w_open).
Proof.
  destruct (failed_close_stays_open_and_silent (T := stalling_usb) w_open
              (Fn "cb") 2 eq_refl eq_refl eq_refl eq_refl (le_n 2))
    as (_ & [H|H] & _).
  - destruct H as (H & _). vm_compute in H. discriminate H.
  - destruct H as (h & c & e & shown & Hwhy & Ho & Hi & _ & Hout).
    destruct Hwhy as [[H _]|[H _]]; [vm_compute in H; discriminate H|].
    assert (He : e = UsbError 4)
      by (vm_compute in H; injection H as <-; reflexivity).
    subst e. exists h, c. split; [exact H|]. split; [|split; [exact Ho|exact Hi]].
    destruct Hout as [(_ & Hl & _)|[[Hf|Hf] _]].
    + vm_compute in Hl. discriminate Hl.
    + vm_compute in Hf. discriminate Hf.
    + exact Hf.
Defined.

(** X11. [close] on a running session whose stop request completes with an
    error.  On a session that has an ['error'] listener the error is emitted
    twice, once by [stop] and once by the closure of [close], the callback
    is called once with it, no interface is released and the session stays
    open and running.  On a session without one the first [emit] raises the
    error out of the completion of [stop]: nothing is emitted, the closure
    of [close] stays queued and the callback is not called. *)
Theorem close_reports_failed_stop_twice {T : Transport}
    (w : World) (cb : UserCb) (n : nat) (e : Err) :
  _isOpen (self w) = true ->
  _isRunning (self w) = true ->
  _isConnected (self w) = true ->
  idle w = true ->
  3 <= n ->
  throws (trace w) (carrier_request 0) = None ->
  fails (trace w ++ [Usb (carrier_request 0)]) (carrier_request 0) = Some e ->
  settled n (close cb) w
  = if errorListener w then
      (Ret tt,
       traced ([Usb (carrier_request 0);
                Completed (carrier_request 0) (Some e);
                Emit (EvError (Some e));
                Emit (EvError (Some e))] ++ called_back cb (Some e)) w)
    else
      (Uncaught e,
       ticked [(CloseRetry cb, Some e)]
         (traced [Usb (carrier_request 0);
                  Completed (carrier_request 0) (Some e)] w)).
Proof.
  intros Ho Hr Hc Hi Hn Hth Hfl. apply idle_empty in Hi as [Ht Hf].
  destruct w as [[dev o r c ic id ec ei eo] tr tk inf el]; simpl in *. subst.
  do 3 (destruct n as [|n]; [lia|]).
  unfold carrier_request in *.
  destruct n, cb, el; js_run; rewrite Hth; js_run; rewrite Hfl; js_run;
    rewrite <- ?app_assoc; reflexivity.
Qed.

Lemma close_reports_failed_stop_twice_witness :
  settled (T := stalling_usb) 3 (close (T := stalling_usb) (Fn "cb"))
    (listening w_running)
  = (Ret tt,
     traced [Usb (carrier_request 0);
             Completed (carrier_request 0) (Some (UsbError 4));
             Emit (EvError (Some (UsbError 4)));
             Emit (EvError (Some (UsbError 4)));
             Invoke "cb" (Some (UsbError 4))] (listening w_running))
  /\ settled (T := stalling_usb) 3 (close (T := stalling_usb) (Fn "cb"))
       w_running
     = (Uncaught (UsbError 4),
        ticked [(CloseRetry (Fn "cb"), Some (UsbError 4))]
          (traced [Usb (carrier_request 0);
                   Completed (carrier_request 0) (Some (UsbError 4))]
             w_running)).
Proof.
  split.
  - apply (close_reports_failed_stop_twice (T := stalling_usb)
             (listening w_running) (Fn "cb") 3 (UsbError 4));
      [reflexivity | reflexivity | reflexivity | reflexivity | lia
      | reflexivity | reflexivity ].
  - apply (close_reports_failed_stop_twice (T := stalling_usb) w_running
             (Fn "cb") 3 (UsbError 4));
      [reflexivity | reflexivity | reflexivity | reflexivity | lia
      | reflexivity | reflexivity ].
Defined.

Lemma completes_bind (m1 m2 : M unit) w o1 r1 e1 c1 o2 r2 e2 c2 :
  completes m1 w o1 r1 e1 c1 ->
  (forall w1, _isOpen (self w1) = o1 -> _isRunning (self w1) = r1 ->
              _isConnected (self w1) = _isConnected (self w) ->
              idle w1 = true ->
              completes m2 w1 o2 r2 e2 c2) ->
  completes (m1 ;; m2) w o2 r2 (e1 ++ e2) (c1 ++ c2).
Proof.
  intros (w1 & H1 & Ho & Hr & Hc & Ht & Hf & He & Hi) H2.
  destruct (H2 w1 Ho Hr Hc) as (w2 & H2' & Ho2 & Hr2 & Hc2 & Ht2 & Hf2 & He2 & Hi2).
  { unfold idle. by rewrite Ht, Hf. }
  exists w2. rewrite (bind_Ret _ _ _ _ _ H1).
  repeat split; try done.
  - congruence.
  - by rewrite He2, He, app_assoc.
  - by rewrite Hi2, Hi, app_assoc.
Qed.

Ltac js_sound :=
  repeat (js_run;
          try match goal with
              | |- context [if linux then _ else _] => destruct linux eqn:?
              | |- context [kernelDriverActive ?h] =>
                  destruct (kernelDriverActive h) eqn:?
              end);
  js_run.

Lemma open_completes {T : Transport} w cb n :
  sound_usb T ->
  _isOpen (self w) = false -> _isConnected (self w) = true ->
  idle w = true ->
  completes (settled n (open cb)) w true (_isRunning (self w))
    [EvOpen] (called cb None).
Proof.
  intros [Hth Hfl] Ho Hc Hi. apply idle_empty in Hi as [Ht Hf].
  destruct w as [[dev o r c ic id ec ei eo] tr tk inf el]; simpl in *. subst.
  unfold completes.
  destruct n, cb; cbn [called]; js_sound; eexists;
    (split; [reflexivity|]); repeat split; js_trace; reflexivity.
Qed.

Lemma start_completes {T : Transport} w cb n :
  sound_usb T ->
  _isOpen (self w) = true -> _isConnected (self w) = true ->
  idle w = true -> 1 <= n ->
  completes (settled n (start cb)) w true true [EvStart] (called cb None).
Proof.
  intros [Hth Hfl] Ho Hc Hi Hn. apply idle_empty in Hi as [Ht Hf].
  destruct w as [[dev o r c ic id ec ei eo] tr tk inf el]; simpl in *. subst.
  unfold completes. destruct n as [|n]; [lia|].
  destruct n, cb; cbn [called]; js_sound; eexists;
    (split; [reflexivity|]); repeat split; js_trace; reflexivity.
Qed.

Lemma stop_completes {T : Transport} w cb n :
  sound_usb T ->
  _isOpen (self w) = true -> _isConnected (self w) = true ->
  idle w = true -> 1 <= n ->
  completes (settled n (stop (Caller cb))) w true false [EvStop]
    (called cb None).
Proof.
  intros [Hth Hfl] Ho Hc Hi Hn. apply idle_empty in Hi as [Ht Hf].
  destruct w as [[dev o r c ic id ec ei eo] tr tk inf el]; simpl in *. subst.
  unfold completes. destruct n as [|n]; [lia|].
  destruct n, cb; cbn [called]; js_sound; eexists;
    (split; [reflexivity|]); repeat split; js_trace; reflexivity.
Qed.

Lemma close_completes {T : Transport} w cb n :
  sound_usb T ->
  _isOpen (self w) = true -> _isRunning (self w) = false ->
  _isConnected (self w) = true ->
  idle w = true -> 2 <= n ->
  completes (settled n (close cb)) w false false [EvClose] (called cb None).
Proof.
  intros [Hth Hfl] Ho Hr Hc Hi Hn. apply idle_empty in Hi as [Ht Hf].
  destruct w as [[dev o r c ic id ec ei eo] tr tk inf el]; simpl in *. subst.
  unfold completes. do 2 (destruct n as [|n]; [lia|]).
  destruct n, cb; cbn [called]; js_sound; eexists;
    (split; [reflexivity|]); repeat split; js_trace; reflexivity.
Qed.

(** X12. On a USB stack that does not fail, [open], [start], [stop] and
    [close] in this order take a closed, connected session at rest back to
    closed and at rest, emit ['open'], ['start'], ['stop'], ['close'] in this
    order and call each callback once, without argument. *)
Theorem session_life_cycle {T : Transport}
    (w : World) (cb1 cb2 cb3 cb4 : UserCb) (n : nat) :
  sound_usb T ->
  _isOpen (self w) = false ->
  _isConnected (self w) = true ->
  idle w = true ->
  2 <= n ->
  completes
    (settled n (open cb1) ;; settled n (start cb2) ;;
     settled n (stop (Caller cb3)) ;; settled n (close cb4))
    w false false
    [EvOpen; EvStart; EvStop; EvClose]
    (called cb1 None ++ called cb2 None ++ called cb3 None ++ called cb4 None).
Proof.
  intros HT Ho Hc Hi Hn.
  apply (completes_bind _ _ w true (_isRunning (self w)) [EvOpen] _
           false false [EvStart; EvStop; EvClose]);
    [by apply open_completes|].
  intros w1 Ho1 _ Hc1 Hi1. rewrite Hc in Hc1.
  apply (completes_bind _ _ w1 true true [EvStart] _
           false false [EvStop; EvClose]);
    [apply start_completes; (done || lia)|].
  intros w2 Ho2 _ Hc2 Hi2. rewrite Hc1 in Hc2.
  apply (completes_bind _ _ w2 true false [EvStop] _
           false false [EvClose]);
    [apply stop_completes; (done || lia)|].
  intros w3 Ho3 Hr3 Hc3 Hi3. rewrite Hc2 in Hc3.
  by apply close_completes.
Qed.

Lemma session_life_cycle_witness :
  completes
    (settled (T := ideal_usb) 2 (open (T := ideal_usb) (Fn "a")) ;;
     settled (T := ideal_usb) 2 (start (T := ideal_usb) (Fn "b")) ;;
     settled (T := ideal_usb) 2 (stop (T := ideal_usb) (Caller (Fn "c"))) ;;
     settled (T := ideal_usb) 2 (close (T := ideal_usb) (Fn "d")))
    w_closed false false
    [EvOpen; EvStart; EvStop; EvClose]
    [("a", None); ("b", None); ("c", None); ("d", None)].
Proof.
  apply (session_life_cycle (T := ideal_usb) w_closed
           (Fn "a") (Fn "b") (Fn "c") (Fn "d") 2);
    [split; intros; reflexivity | reflexivity | reflexivity | reflexivity
    | lia].
Defined.

Ltac over_done :=
  unfold over; cbn [fst snd ticks inflight errorListener];
  (split; [discriminate|]); (split; [reflexivity|]);
  (split; [intros [H|H]; (reflexivity || discriminate H) | cbn; lia]).

Lemma call_settles_3 {T : Transport} w cb :
  idle w = true ->
  over w (settled 3 (open cb) w)
  /\ over w (settled 3 (start cb) w)
  /\ over w (settled 3 (stop (Caller cb)) w)
  /\ over w (settled 3 (close cb) w).
Proof.
  intros Hi. apply idle_empty in Hi as [Ht Hf].
  destruct w as [[dev o r c ic id ec ei eo] tr tk inf el]; simpl in *. subst.
  split; [|split; [|split]].
  - destruct (settled 3 (open cb) _) as [out w'] eqn:E. revert E.
    destruct o, c; js_explore; intros [= <- <-]; over_done.
  - destruct (settled 3 (start cb) _) as [out w'] eqn:E. revert E.
    destruct o, c; js_explore; intros [= <- <-]; over_done.
  - destruct (settled 3 (stop (Caller cb)) _) as [out w'] eqn:E. revert E.
    destruct o, c; js_explore; intros [= <- <-]; over_done.
  - destruct (settled 3 (close cb) _) as [out w'] eqn:E. revert E.
    destruct o, r, c; js_explore; intros [= <- <-]; over_done.
Qed.

(** X13. Whatever the USB stack does and whatever the flags are, a call of
    [open], [start], [stop] or [close] on a session at rest is over within
    three turns of the event loop: [close] calling [stop] calling [close]
    does not go on.  Nothing is left in flight.  Nothing is left queued
    either when the call returns or the session has an ['error'] listener;
    when an error is raised for want of a listener, at most the one callback
    that was to be told of it is. *)
Theorem every_call_settles_in_three_turns {T : Transport}
    (w : World) (cb : UserCb) (n : nat) :
  idle w = true ->
  3 <= n ->
  over w (settled n (open cb) w)
  /\ over w (settled n (start cb) w)
  /\ over w (settled n (stop (Caller cb)) w)
  /\ over w (settled n (close cb) w).
Proof.
  intros Hi Hn.
  destruct (call_settles_3 w cb Hi) as (H1 & H2 & H3 & H4).
  rewrite !(settled_more _ w 3 n Hn)
    by (first [apply H1 | apply H2 | apply H3 | apply H4]).
  done.
Qed.

(** Without an ['error'] listener the callback that was to be told of a
    failed request is left queued behind the exception. *)
Lemma unheard_error_leaves_callback_queued :
  fst (settled (T := stalling_usb) 3 (start (T := stalling_usb) (Fn "cb"))
         w_open) = Uncaught (UsbError 4)
  /\ idle (snd (settled (T := stalling_usb) 3
                  (start (T := stalling_usb) (Fn "cb")) w_open)) = false
  /\ ticks (snd (settled (T := stalling_usb) 3
                   (start (T := stalling_usb) (Fn "cb")) w_open))
     = [(Caller (Fn "cb"), Some (UsbError 4))].
Proof. repeat split. Qed.

Lemma every_call_settles_in_three_turns_witness :
  over (listening w_running)
    (settled (T := stalling_usb) 5 (close (T := stalling_usb) (Fn "cb"))
       (listening w_running))
  /\ over w_running
       (settled (T := stalling_usb) 5 (close (T := stalling_usb) (Fn "cb"))
          w_running).
Proof.
  split.
  - apply (every_call_settles_in_three_turns (T := stalling_usb)
             (listening w_running) (Fn "cb") 5);
      [reflexivity | lia].
  - apply (every_call_settles_in_three_turns (T := stalling_usb) w_running
             (Fn "cb") 5);
      [reflexivity | lia].
Defined.

Lemma run_op_device {T : Transport} (o : Op) (w : World) :
  _device (self (snd (run_op o w))) = _device (self w).
Proof.
  set (P := fun p => _device p = _device (self w)).
  destruct o; simpl.
  - by apply (keeps_open P).
  - by apply (keeps_close P).
  - by apply (keeps_start P).
  - by apply (keeps_stop P).
  - by apply (keeps_incomingData P).
  - reflexivity.
  - by apply (keeps_turn P).
  - reflexivity.
  - reflexivity.
  - by apply (keeps_emit P).
Qed.

(** X14. No run of method calls, buffers, turns and disconnections changes
    the device a session is bound to. *)
Theorem session_stays_bound_to_its_device {T : Transport}
    (ops : list Op) (w : World) :
  _device (self (run_ops ops w)) = _device (self w).
Proof.
  revert w. induction ops as [|o ops IH]; intros w; [done|].
  simpl. rewrite IH. apply run_op_device.
Qed.

(** X15. The completion of [start] does not look at [_isConnected]: when the
    device is unplugged while the request is in flight and the request still
    completes without error, [_isRunning] becomes true and ['start'] is
    emitted on the disconnected session. *)
Theorem start_in_flight_survives_disconnect {T : Transport}
    (w : World) (cb : UserCb) (n : nat) :
  _isOpen (self w) = true ->
  _isConnected (self w) = true ->
  idle w = true ->
  1 <= n ->
  throws (trace w) (carrier_request 3) = None ->
  fails (trace w ++ [Usb (carrier_request 3); Emit EvDisconnected])
        (carrier_request 3) = None ->
  (start cb ;; _onDisconnect ;; loop n) w
  = (Ret tt,
     updated (set_isRunning true)
       (updated (set_isConnected false)
          (traced ([Usb (carrier_request 3); Emit EvDisconnected;
                    Completed (carrier_request 3) None; Emit EvStart]
                   ++ called_back cb None) w))).
Proof.
  intros Ho Hc Hi Hn Hth Hfl. apply idle_empty in Hi as [Ht Hf].
  destruct w as [[dev o r c ic id ec ei eo] tr tk inf el]; simpl in *. subst.
  destruct n as [|n]; [lia|].
  unfold carrier_request in *.
  destruct n, cb; js_run; rewrite Hth; js_run;
    rewrite <- ?app_assoc; cbn [app]; rewrite Hfl; js_run;
    rewrite <- ?app_assoc; reflexivity.
Qed.

Lemma start_in_flight_survives_disconnect_witness :
  (start (T := ideal_usb) (Fn "cb") ;; _onDisconnect ;;
   loop (T := ideal_usb) 1) w_open
  = (Ret tt,
     updated (set_isRunning true)
       (updated (set_isConnected false)
          (traced [Usb (carrier_request 3); Emit EvDisconnected;
                   Completed (carrier_request 3) None; Emit EvStart;
                   Invoke "cb" None] w_open))).
Proof.
  apply (start_in_flight_survives_disconnect (T := ideal_usb) w_open
           (Fn "cb") 1);
    [reflexivity | reflexivity | reflexivity | lia | reflexivity
    | reflexivity].
Defined.

Lemma run_op_errorListener {T : Transport} (o : Op) (w : World) :
  errorListener (snd (run_op o w))
  = match o with
    | OpOnError => true
    | OpRemoveAllListeners => false
    | _ => errorListener w
    end.
Proof.
  destruct o; simpl; try reflexivity.
  - apply steady_open.
  - apply steady_close.
  - apply steady_start.
  - apply steady_stop.
  - apply steady_incomingData.
  - apply steady_turn.
  - apply steady_emit.
Qed.

(** X25. The session never listens to its own errors: no method call,
    buffer, endpoint error, detach notice or turn of the loop adds an
    ['error'] listener, and only the user's [removeAllListeners] removes
    one.  So on a session to which the user has added none, whatever was
    done with it, a buffer with a bad record is not decoded to its end: the
    checksum error is raised out of the decoder. *)
Theorem session_never_listens_by_itself {T : Transport}
    (ops : list Op) (w : World) :
  errorListener w = false ->
  Forall (fun o => o <> OpOnError) ops ->
  errorListener (run_ops ops w) = false
  /\ (forall o w0,
        errorListener (snd (run_op o w0))
        = match o with
          | OpOnError => true
          | OpRemoveAllListeners => false
          | _ => errorListener w0
          end)
  /\ (forall data,
        checksums_ok data = false ->
        fst (_onRawData data (run_ops ops w)) = Throw ChecksumMismatch).
Proof.
  intros Hw Hops.
  assert (H : errorListener (run_ops ops w) = false).
  { revert w Hw. induction Hops as [|o ops Ho _ IH]; intros w Hw; [done|].
    simpl. apply IH. rewrite run_op_errorListener. by destruct o. }
  split; [exact H|]. split; [apply run_op_errorListener|].
  intros data Hbad. rewrite onRawData_unheard by done. cbn [fst].
  destruct (first_error_found _ Hbad) as [arg Harg]. rewrite Harg.
  by rewrite (first_error_decode _ _ Harg).
Qed.

(** A new session that was opened and has delivered a good buffer. *)
Lemma session_never_listens_by_itself_witness :
  errorListener
    (run_ops (T := ideal_usb)
       [OpOpen (Fn "cb"); OpRawData good_record; OpStart NotAFunction; OpTurn]
       w_closed) = false
  /\ fst (_onRawData (good_record ++ bad_record)
            (run_ops (T := ideal_usb)
               [OpOpen (Fn "cb"); OpRawData good_record; OpStart NotAFunction;
                OpTurn] w_closed))
     = Throw ChecksumMismatch.
Proof.
  split.
  - apply (session_never_listens_by_itself (T := ideal_usb)
             [OpOpen (Fn "cb"); OpRawData good_record; OpStart NotAFunction;
              OpTurn] w_closed);
      [reflexivity | repeat constructor; discriminate].
  - apply (session_never_listens_by_itself (T := ideal_usb)
             [OpOpen (Fn "cb"); OpRawData good_record; OpStart NotAFunction;
              OpTurn] w_closed);
      [reflexivity | repeat constructor; discriminate | reflexivity].
Defined.

(* ================================================================== *)
(** ** Proofs: the registry *)

Lemma first_index_spec {A} (test : A -> bool) (l : list A) : forall k i,
  first_index test l k = Some i ->
  k <= i /\ exists x, l !! (i - k) = Some x /\ test x = true.
Proof.
  induction l as [|y l IH]; intros k i; simpl; [done|].
  destruct (test y) eqn:Hy.
  - intros [= <-]. split; [lia|]. exists y. by rewrite Nat.sub_diag.
  - intros H. apply IH in H as (Hk & x & Hx & Ht). split; [lia|].
    exists x. split; [|done].
    replace (i - k) with (S (i - S k)) by lia. done.
Qed.

Lemma first_index_None {A} (test : A -> bool) (l : list A) : forall k,
  first_index test l k = None -> existsb test l = false.
Proof.
  induction l as [|y l IH]; intros k; simpl; [done|].
  destruct (test y); [done|]. apply IH.
Qed.

(** What [checkRemoveDevice] does when the loop finds a match at index [i],
    where the handle [h] is stored. *)
Lemma checkRemoveDevice_found (d : UsbDevice) (r : Registry) (i : nat) (h : Handle) :
  deviceDescriptor d <> None ->
  first_index (fun h => matchDeviceAddresses (device_of (heap r) h) (Some d))
              (devices r) 0 = Some i ->
  devices r !! i = Some h ->
  checkRemoveDevice (Some d) r
  = {| heap := alter (fun w => snd (_onDisconnect w)) h (heap r);
       devices := delete i (devices r);
       ee := ee r ++ [Disconnected (devices r !! S i)] |}.
Proof.
  intros Hd Hi Hh. unfold checkRemoveDevice.
  destruct (deviceDescriptor d); [|done].
  rewrite Hi, Hh. by rewrite list_lookup_delete_ge.
Qed.

(** C6, as the code has it.  On a detach notice that matches the tracked
    entry at index [i], holding the session [h]: that session is marked
    disconnected by [_onDisconnect] (its flag is false and it has emitted
    ['disconnected']), and the entry is removed from [devices]; but the
    registry's ['disconnected'] event carries [devices[i]] read after the
    removal, that is the entry that followed the removed one, or [undefined]
    when the removed one was last; not the removed session. *)
Theorem detach_event_carries_next_entry
    (d : UsbDevice) (r : Registry) (i : nat) (h : Handle) (w : World) :
  deviceDescriptor d <> None ->
  first_index (fun h => matchDeviceAddresses (device_of (heap r) h) (Some d))
              (devices r) 0 = Some i ->
  devices r !! i = Some h ->
  heap r !! h = Some w ->
  let r' := checkRemoveDevice (Some d) r in
  heap r' !! h = Some (updated (set_isConnected false)
                         (traced [Emit EvDisconnected] w))
  /\ devices r' = delete i (devices r)
  /\ ee r' = ee r ++ [Disconnected (devices r !! S i)].
Proof.
  intros Hd Hi Hh Hw r'. unfold r'.
  rewrite (checkRemoveDevice_found d r i h Hd Hi Hh). cbn [heap devices ee].
  split; [|done].
  rewrite list_lookup_alter_eq, Hw. reflexivity.
Qed.

(** Two devices tracked; the first is unplugged: the event carries the
    session of the second, which is still plugged in and tracked. *)
Lemma detach_event_carries_next_entry_witness :
  let r := attach_all [pendaq_id] [Some pendaq_dev; Some pendaq_dev2]
             Registry_init in
  let r' := checkRemoveDevice (Some pendaq_dev) r in
  heap r' !! 0 = Some (updated (set_isConnected false)
                         (traced [Emit EvDisconnected]
                            (fresh (PenDaq_init pendaq_dev))))
  /\ devices r' = [1]
  /\ ee r' = [Connected (Some 0); Connected (Some 1); Disconnected (Some 1)].
Proof.
  apply (detach_event_carries_next_entry pendaq_dev
           (attach_all [pendaq_id] [Some pendaq_dev; Some pendaq_dev2]
              Registry_init)
           0 0 (fresh (PenDaq_init pendaq_dev)));
    [discriminate | reflexivity | reflexivity | reflexivity].
Defined.

(** The failing input of C6: one tracked device, unplugged.  The session 0
    is the one removed; the event carries [undefined]. *)
Lemma detach_of_only_device_emits_undefined :
  let r := attach_all [pendaq_id] [Some pendaq_dev] Registry_init in
  devices r = [0]
  /\ devices (checkRemoveDevice (Some pendaq_dev) r) = []
  /\ ee (checkRemoveDevice (Some pendaq_dev) r)
     = [Connected (Some 0); Disconnected None].
Proof. repeat split. Qed.

Lemma matchDeviceAddresses_at b a dev1 d :
  b <> 0%Z -> a <> 0%Z -> at_address b a (Some d) = true ->
  matchDeviceAddresses dev1 (Some d) = at_address b a dev1.
Proof.
  intros Hb Ha Hd. simpl in Hd. apply andb_true_iff in Hd as [Hdb Hda].
  apply Z.eqb_eq in Hdb, Hda.
  destruct dev1 as [d1|]; [|done]. simpl. rewrite Hdb, Hda.
  unfold truthy_num.
  destruct (Z.eqb_spec (busNumber d1) b) as [->|]; simpl.
  - destruct (Z.eqb_spec b 0); [done|]. simpl.
    destruct (Z.eqb_spec (deviceAddress d1) a) as [->|]; simpl.
    + by destruct (Z.eqb_spec a 0).
    + by rewrite andb_false_r.
  - by rewrite andb_false_r.
Qed.

Lemma existsb_pointwise {A} (f g : A -> bool) (l : list A) :
  (forall x, f x = g x) -> existsb f l = existsb g l.
Proof. intros H. induction l as [|x l IH]; simpl; [done|]. by rewrite H, IH. Qed.

Lemma existsb_false_filter {A} (f : A -> bool) (l : list A) :
  existsb f l = false -> List.filter f l = [].
Proof.
  induction l as [|x l IH]; simpl; [done|].
  destruct (f x); simpl; [done|]. apply IH.
Qed.

Lemma existsb_true_filter {A} (f : A -> bool) (l : list A) :
  existsb f l = true -> 1 <= length (List.filter f l).
Proof.
  induction l as [|x l IH]; simpl; [done|].
  destruct (f x); simpl; [lia|]. apply IH.
Qed.

Lemma device_of_app_l hp obj h :
  h < length hp -> device_of (hp ++ [obj]) h = device_of hp h.
Proof. intros Hh. unfold device_of. by rewrite lookup_app_l. Qed.

Lemma device_of_app_new hp obj :
  device_of (hp ++ [obj]) (length hp) = Some (_device (self obj)).
Proof.
  unfold device_of. rewrite lookup_app_r by lia.
  by rewrite Nat.sub_diag.
Qed.

Lemma tracked_push b a hp devs evs evs' obj :
  Forall (fun h => h < length hp) devs ->
  tracked b a {| heap := hp ++ [obj]; devices := devs ++ [length hp];
                 ee := evs' |}
  = tracked b a {| heap := hp; devices := devs; ee := evs |}
    ++ (if at_address b a (Some (_device (self obj))) then [length hp] else []).
Proof.
  intros Hv. unfold tracked. simpl. rewrite List.filter_app. f_equal.
  - apply List.filter_ext_in. intros h Hh. rewrite device_of_app_l; [done|].
    rewrite Forall_forall in Hv. apply Hv. by apply list_elem_of_In.
  - simpl. by rewrite device_of_app_new.
Qed.

Lemma filter_connected b a (hp : list World) (l : list nat) :
  List.filter (fun ev => match ev with
                         | Connected (Some h) => at_address b a (device_of hp h)
                         | _ => false
                         end)
              ((fun h => Connected (Some h)) <$> l)
  = (fun h => Connected (Some h))
      <$> List.filter (fun h => at_address b a (device_of hp h)) l.
Proof.
  induction l as [|h l IH]; [done|].
  rewrite fmap_cons. cbn [List.filter].
  destruct (at_address b a (device_of hp h)); by rewrite ?fmap_cons, IH.
Qed.

Lemma connected_events_attached b a r :
  attached r ->
  connected_events b a r = (fun h => Connected (Some h)) <$> tracked b a r.
Proof.
  intros [_ He]. unfold connected_events, tracked. rewrite He.
  apply filter_connected.
Qed.

(** What one attach notification does, seen from one address. *)
Lemma attached_push hp ds evs obj :
  attached {| heap := hp; devices := ds; ee := evs |} ->
  attached {| heap := hp ++ [obj]; devices := ds ++ [length hp];
              ee := evs ++ [Connected (Some (length hp))] |}.
Proof.
  intros [Hv He]. simpl in *. split; simpl.
  - rewrite length_app. simpl. apply Forall_app. split.
    + eapply Forall_impl; [exact Hv|]. simpl. lia.
    + constructor; [lia|constructor].
  - by rewrite fmap_app, He.
Qed.

Lemma checkNewDevice_step usbIDs b a dev r :
  b <> 0%Z -> a <> 0%Z ->
  attached r -> length (tracked b a r) <= 1 ->
  attached (checkNewDevice usbIDs dev r)
  /\ length (tracked b a (checkNewDevice usbIDs dev r))
     = (if announces usbIDs b a dev then 1 else length (tracked b a r))
  /\ (announces usbIDs b a dev = true -> length (tracked b a r) = 1 ->
      checkNewDevice usbIDs dev r = r).
Proof.
  intros Hb Ha Hr Hle. unfold announces, allowed, checkNewDevice.
  destruct dev as [d|]; [|by simpl].
  destruct (deviceDescriptor d) as [desc|] eqn:Hdesc; [|by simpl].
  destruct (existsb _ usbIDs); [|by simpl]. cbn [negb andb].
  unfold new_PenDaq. rewrite Hdesc.
  destruct (at_address b a (Some d)) eqn:Hat.
  - (* the notification is for the address under watch *)
    rewrite (existsb_pointwise _
               (fun h => at_address b a (device_of (heap r) h)))
      by (intros h; apply (matchDeviceAddresses_at b a _ d Hb Ha Hat)).
    destruct (existsb _ (devices r)) eqn:Hex; cbn [negb].
    + assert (1 <= length (tracked b a r))
        by (by apply existsb_true_filter).
      split; [done|]. split; [lia|done].
    + assert (Htr : tracked b a r = []) by (by apply existsb_false_filter).
      destruct r as [hp ds evs]. cbn [heap devices ee].
      split; [by apply attached_push|]. split.
      * rewrite (tracked_push b a hp ds evs) by apply Hr.
        cbn [fresh PenDaq_init self _device]. by rewrite Hat, Htr.
      * intros _ H1. by rewrite Htr in H1.
  - (* another device *)
    destruct (existsb _ (devices r)) eqn:Hex; cbn [negb]; [done|].
    destruct r as [hp ds evs]. cbn [heap devices ee].
    split; [by apply attached_push|]. split; [|done].
    rewrite (tracked_push b a hp ds evs) by apply Hr.
    cbn [fresh PenDaq_init self _device]. by rewrite Hat, app_nil_r.
Qed.

Lemma attach_all_cons usbIDs dev devs r :
  attach_all usbIDs (dev :: devs) r
  = attach_all usbIDs devs (checkNewDevice usbIDs dev r).
Proof. reflexivity. Qed.

Lemma attach_all_snoc usbIDs devs dev r :
  attach_all usbIDs (devs ++ [dev]) r
  = checkNewDevice usbIDs dev (attach_all usbIDs devs r).
Proof. unfold attach_all. by rewrite fold_left_app. Qed.

Lemma attach_all_tracked usbIDs b a devs : forall r,
  b <> 0%Z -> a <> 0%Z ->
  attached r -> length (tracked b a r) <= 1 ->
  attached (attach_all usbIDs devs r)
  /\ length (tracked b a (attach_all usbIDs devs r))
     = (if existsb (announces usbIDs b a) devs then 1
        else length (tracked b a r)).
Proof.
  induction devs as [|dev devs IH]; intros r Hb Ha Hr Hle; [done|].
  destruct (checkNewDevice_step usbIDs b a dev r Hb Ha Hr Hle)
    as (Hr' & Hlen & _).
  rewrite attach_all_cons. cbn [existsb].
  destruct (IH (checkNewDevice usbIDs dev r) Hb Ha Hr') as [Hr'' Hl''].
  { rewrite Hlen. destruct (announces _ _ _ _); lia. }
  split; [done|]. rewrite Hl'', Hlen.
  by destruct (announces usbIDs b a dev), (existsb _ devs).
Qed.

Lemma attached_init : attached Registry_init.
Proof. split; [constructor | reflexivity]. Qed.

Lemma existsb_app_true {A} (f : A -> bool) l1 x l2 :
  f x = true -> existsb f (l1 ++ x :: l2) = true.
Proof.
  intros Hx. rewrite existsb_app. simpl. rewrite Hx.
  by rewrite orb_true_r.
Qed.

(** What the registry does for addresses that JavaScript takes for true.
    Whatever the run of attach notifications, if it delivers two for allowed
    devices at the same bus number and device address, both nonzero, the
    registry ends with
    exactly one tracked session and exactly one ['connected'] event for that
    address, and the second notification leaves the registry as it was; when
    the two are all there is, the registry holds that one session and that
    one event and nothing else. *)
Theorem same_address_is_tracked_once
    (usbIDs : list Descriptor) (b a : Z) (d1 d2 : UsbDevice)
    (pre mid post : list (option UsbDevice)) :
  b <> 0%Z -> a <> 0%Z ->
  announces usbIDs b a (Some d1) = true ->
  announces usbIDs b a (Some d2) = true ->
  length (tracked b a
            (attach_all usbIDs (pre ++ Some d1 :: mid ++ Some d2 :: post)
               Registry_init)) = 1
  /\ length (connected_events b a
               (attach_all usbIDs (pre ++ Some d1 :: mid ++ Some d2 :: post)
                  Registry_init)) = 1
  /\ attach_all usbIDs (pre ++ Some d1 :: mid ++ [Some d2]) Registry_init
     = attach_all usbIDs (pre ++ Some d1 :: mid) Registry_init
  /\ attach_all usbIDs [Some d1; Some d2] Registry_init
     = {| heap := [fresh (PenDaq_init d1)];
          devices := [0];
          ee := [Connected (Some 0)] |}.
Proof.
  intros Hb Ha H1 H2.
  assert (Hinit : length (tracked b a Registry_init) <= 1) by (simpl; lia).
  assert (Hall : forall devs,
             existsb (announces usbIDs b a) devs = true ->
             attached (attach_all usbIDs devs Registry_init)
             /\ length (tracked b a (attach_all usbIDs devs Registry_init)) = 1).
  { intros devs Hex.
    destruct (attach_all_tracked usbIDs b a devs Registry_init Hb Ha
                attached_init Hinit) as [Hat Hlen].
    by rewrite Hex in Hlen. }
  assert (Hsecond : forall devs,
             existsb (announces usbIDs b a) devs = true ->
             attach_all usbIDs (devs ++ [Some d2]) Registry_init
             = attach_all usbIDs devs Registry_init).
  { intros devs Hex. destruct (Hall devs Hex) as [Hat Hlen].
    rewrite attach_all_snoc.
    apply (checkNewDevice_step usbIDs b a (Some d2) _ Hb Ha Hat); [lia|done..]. }
  destruct (Hall (pre ++ Some d1 :: mid ++ Some d2 :: post)) as [Hat Hlen];
    [by apply existsb_app_true|].
  split; [done|]. split; [|split].
  - rewrite connected_events_attached by done. by rewrite length_fmap.
  - replace (pre ++ Some d1 :: mid ++ [Some d2])
      with ((pre ++ Some d1 :: mid) ++ [Some d2])
      by (by rewrite <- app_assoc).
    apply Hsecond. by apply existsb_app_true.
  - change [Some d1; Some d2] with ([Some d1] ++ [Some d2]).
    rewrite (Hsecond [Some d1]) by (simpl; by rewrite H1).
    unfold announces, allowed in H1. unfold attach_all, checkNewDevice.
    cbn [fold_left].
    destruct (deviceDescriptor d1) as [desc|] eqn:Hdesc; [|done].
    destruct (existsb _ usbIDs); [|done].
    cbn. unfold new_PenDaq. by rewrite Hdesc.
Qed.

Lemma same_address_is_tracked_once_witness :
  length (tracked 1 2
            (attach_all [pendaq_id]
               [Some pendaq_dev; Some pendaq_dev2; Some pendaq_dev]
               Registry_init)) = 1
  /\ length (connected_events 1 2
               (attach_all [pendaq_id]
                  [Some pendaq_dev; Some pendaq_dev2; Some pendaq_dev]
                  Registry_init)) = 1
  /\ attach_all [pendaq_id]
       [Some pendaq_dev; Some pendaq_dev2; Some pendaq_dev] Registry_init
     = attach_all [pendaq_id] [Some pendaq_dev; Some pendaq_dev2]
         Registry_init
  /\ attach_all [pendaq_id] [Some pendaq_dev; Some pendaq_dev] Registry_init
     = {| heap := [fresh (PenDaq_init pendaq_dev)];
          devices := [0];
          ee := [Connected (Some 0)] |}.
Proof.
  apply (same_address_is_tracked_once [pendaq_id] 1 2 pendaq_dev pendaq_dev
           [] [Some pendaq_dev2] []);
    [discriminate | discriminate | reflexivity | reflexivity].
Defined.

(** No tracked device is taken for a new one whose bus number or address is
    0: the comparison is guarded by the truth of the tracked device's own
    numbers, which would have to be equal to these. *)
Lemma match_zero_new dev1 d :
  busNumber d = 0%Z \/ deviceAddress d = 0%Z ->
  matchDeviceAddresses dev1 (Some d) = false.
Proof.
  intros H. destruct dev1 as [d1|]; [|done]. simpl. unfold truthy_num.
  destruct H as [H|H]; rewrite H.
  - destruct (Z.eqb_spec (busNumber d1) 0) as [E|E]; [done|].
    by rewrite andb_false_r.
  - destruct (Z.eqb_spec (deviceAddress d1) 0) as [E|E].
    + by rewrite andb_false_r.
    + by rewrite andb_false_r.
Qed.

Lemma checkNewDevice_zero usbIDs d r :
  allowed usbIDs (Some d) = true ->
  busNumber d = 0%Z \/ deviceAddress d = 0%Z ->
  checkNewDevice usbIDs (Some d) r
  = {| heap := heap r ++ [fresh (PenDaq_init d)];
       devices := devices r ++ [length (heap r)];
       ee := ee r ++ [Connected (Some (length (heap r)))] |}.
Proof.
  intros Ha Hz. unfold checkNewDevice, allowed in *.
  destruct (deviceDescriptor d) as [desc|] eqn:Hdesc; [|done].
  rewrite Ha. cbn [negb].
  rewrite (existsb_pointwise _ (fun _ => false))
    by (intros h; by apply match_zero_new).
  replace (existsb (fun _ : nat => false) (devices r)) with false
    by (by induction (devices r)).
  cbn [negb]. unfold new_PenDaq. by rewrite Hdesc.
Qed.

(** C7, where the code breaks it.  For an allowed device whose bus number or
    device address is 0, the check "already in our list by busNumber and
    deviceAddress" never finds it: two attach notifications for it give two
    tracked sessions and two ['connected'] events, whatever the registry
    held before. *)
Theorem zero_address_is_tracked_twice
    (usbIDs : list Descriptor) (d : UsbDevice) (r : Registry) :
  allowed usbIDs (Some d) = true ->
  busNumber d = 0%Z \/ deviceAddress d = 0%Z ->
  attach_all usbIDs [Some d; Some d] r
  = {| heap := heap r ++ [fresh (PenDaq_init d); fresh (PenDaq_init d)];
       devices := devices r ++ [length (heap r); S (length (heap r))];
       ee := ee r ++ [Connected (Some (length (heap r)));
                      Connected (Some (S (length (heap r))))] |}.
Proof.
  intros Ha Hz. unfold attach_all. cbn [fold_left].
  rewrite !checkNewDevice_zero by done. cbn [heap devices ee].
  rewrite length_app, Nat.add_1_r, <- !app_assoc. reflexivity.
Qed.

(** The same PenDAq reported twice on bus 0, on a registry that tracks
    nothing. *)
Lemma zero_address_is_tracked_twice_witness :
  attach_all [pendaq_id] [Some pendaq_bus0; Some pendaq_bus0] Registry_init
  = {| heap := [fresh (PenDaq_init pendaq_bus0);
                fresh (PenDaq_init pendaq_bus0)];
       devices := [0; 1];
       ee := [Connected (Some 0); Connected (Some 1)] |}.
Proof.
  apply (zero_address_is_tracked_twice [pendaq_id] pendaq_bus0 Registry_init);
    [reflexivity | left; reflexivity].
Defined.

(** There the registry counts two sessions and two ['connected'] events at
    bus 0, address 5. *)
Lemma bus_zero_is_tracked_twice :
  announces [pendaq_id] 0 5 (Some pendaq_bus0) = true
  /\ length (tracked 0 5
               (attach_all [pendaq_id] [Some pendaq_bus0; Some pendaq_bus0]
                  Registry_init)) = 2
  /\ length (connected_events 0 5
               (attach_all [pendaq_id] [Some pendaq_bus0; Some pendaq_bus0]
                  Registry_init)) = 2.
Proof. repeat split. Qed.

(* ================================================================== *)
(** ** More on the registry *)

Lemma match_implies_at dev1 d :
  matchDeviceAddresses dev1 (Some d) = true ->
  at_address (busNumber d) (deviceAddress d) dev1 = true.
Proof.
  destruct dev1 as [d1|]; [|done]. simpl.
  rewrite !andb_true_iff. intros [[_ Hb] Ha]. done.
Qed.

Lemma match_self d :
  busNumber d <> 0%Z -> deviceAddress d <> 0%Z ->
  matchDeviceAddresses (Some d) (Some d) = true.
Proof.
  intros Hb Ha. simpl. unfold truthy_num.
  rewrite !Z.eqb_refl.
  destruct (Z.eqb_spec (busNumber d) 0); [done|].
  by destruct (Z.eqb_spec (deviceAddress d) 0).
Qed.

Lemma match_zero d1 dev2 :
  busNumber d1 = 0%Z \/ deviceAddress d1 = 0%Z ->
  matchDeviceAddresses (Some d1) dev2 = false.
Proof.
  intros H. destruct dev2 as [d2|]; [|done]. simpl. unfold truthy_num.
  destruct H as [-> | ->]; simpl; [done|]. by rewrite andb_false_r.
Qed.

Lemma filter_nil_existsb {A} (f g : A -> bool) (l : list A) :
  List.filter f l = [] -> (forall x, g x = true -> f x = true) ->
  existsb g l = false.
Proof.
  intros Hf Hgf. induction l as [|x l IH]; [done|]. simpl in *.
  destruct (f x) eqn:Hx; [done|].
  destruct (g x) eqn:Hg; [|by apply IH].
  apply Hgf in Hg. congruence.
Qed.

Lemma existsb_first_index {A} (test : A -> bool) (l : list A) : forall k,
  existsb test l = false -> first_index test l k = None.
Proof.
  induction l as [|x l IH]; intros k; simpl; [done|].
  destruct (test x); [done|]. apply IH.
Qed.

Lemma first_index_app {A} (test : A -> bool) (l1 : list A) y l2 : forall k,
  existsb test l1 = false -> test y = true ->
  first_index test (l1 ++ y :: l2) k = Some (k + length l1).
Proof.
  induction l1 as [|x l1 IH]; intros k Hl Hy; simpl in *.
  - rewrite Hy. f_equal. lia.
  - destruct (test x); [done|]. rewrite IH by done. f_equal. lia.
Qed.

Lemma existsb_pointwise_in {A} (f g : A -> bool) (l : list A) :
  (forall x, x ∈ l -> f x = g x) -> existsb f l = existsb g l.
Proof.
  intros H. induction l as [|x l IH]; [done|]. simpl.
  rewrite (H x) by left. f_equal. apply IH. intros y Hy. apply H. by right.
Qed.

Lemma untracked_no_match (d : UsbDevice) (r : Registry) :
  tracked (busNumber d) (deviceAddress d) r = [] ->
  existsb (fun h => matchDeviceAddresses (device_of (heap r) h) (Some d))
          (devices r) = false.
Proof.
  intros Ht. eapply filter_nil_existsb; [exact Ht|].
  intros h. apply match_implies_at.
Qed.

(** X16. A detach notification for a device at whose bus number and address
    no session is tracked leaves the registry as it was. *)
Theorem detach_of_untracked_is_ignored (d : UsbDevice) (r : Registry) :
  tracked (busNumber d) (deviceAddress d) r = [] ->
  checkRemoveDevice (Some d) r = r.
Proof.
  intros Ht. unfold checkRemoveDevice.
  destruct (deviceDescriptor d); [|done].
  by rewrite existsb_first_index by (by apply untracked_no_match).
Qed.

Lemma detach_of_untracked_is_ignored_witness :
  checkRemoveDevice (Some pendaq_dev2)
    (attach_all [pendaq_id] [Some pendaq_dev] Registry_init)
  = attach_all [pendaq_id] [Some pendaq_dev] Registry_init.
Proof.
  apply (detach_of_untracked_is_ignored pendaq_dev2). reflexivity.
Defined.

(** X17. Attaching an allowed device with nonzero bus number and address that
    is not tracked adds one session at the end of [devices]; detaching it
    right after gives back the list as it was, leaves the new session
    disconnected in the heap, and the ['disconnected'] event carries
    [undefined]. *)
Theorem attach_then_detach_restores_the_list
    (usbIDs : list Descriptor) (d : UsbDevice) (r : Registry) :
  Forall (fun h => h < length (heap r)) (devices r) ->
  allowed usbIDs (Some d) = true ->
  busNumber d <> 0%Z -> deviceAddress d <> 0%Z ->
  tracked (busNumber d) (deviceAddress d) r = [] ->
  devices (checkNewDevice usbIDs (Some d) r)
  = devices r ++ [length (heap r)]
  /\ checkRemoveDevice (Some d) (checkNewDevice usbIDs (Some d) r)
     = {| heap := heap r
                  ++ [updated (set_isConnected false)
                        (traced [Emit EvDisconnected] (fresh (PenDaq_init d)))];
          devices := devices r;
          ee := ee r ++ [Connected (Some (length (heap r)));
                         Disconnected None] |}.
Proof.
  intros Hv Hal Hb Ha Ht.
  assert (Hnew : checkNewDevice usbIDs (Some d) r
                 = {| heap := heap r ++ [fresh (PenDaq_init d)];
                      devices := devices r ++ [length (heap r)];
                      ee := ee r ++ [Connected (Some (length (heap r)))] |}).
  { unfold checkNewDevice, allowed in *.
    destruct (deviceDescriptor d) as [desc|] eqn:Hdesc; [|done].
    rewrite Hal. cbn [negb].
    rewrite (untracked_no_match d r Ht). cbn [negb].
    unfold new_PenDaq. by rewrite Hdesc. }
  rewrite Hnew. split; [done|].
  unfold checkRemoveDevice. cbn [heap devices ee].
  unfold allowed in Hal.
  destruct (deviceDescriptor d) as [desc|] eqn:Hdesc; [|done].
  rewrite (first_index_app _ (devices r) (length (heap r)) [] 0).
  - cbn [Nat.add].
    rewrite lookup_app_r by lia. rewrite Nat.sub_diag. cbn [lookup list_lookup].
    rewrite (delete_middle (devices r) [] (length (heap r))), app_nil_r.
    rewrite lookup_ge_None_2 by lia.
    f_equal.
    + assert (E : forall (hp : list World) x f,
                 alter f (length hp) (hp ++ [x]) = hp ++ [f x]).
      { intros hp x f. induction hp as [|y hp IH]; [done|].
        simpl. by rewrite <- IH. }
      by rewrite E.
    + by rewrite <- app_assoc.
  - rewrite <- (untracked_no_match d r Ht).
    apply existsb_pointwise_in. intros h Hh.
    rewrite device_of_app_l; [done|].
    rewrite Forall_forall in Hv. by apply Hv.
  - rewrite device_of_app_new. by apply match_self.
Qed.

Lemma attach_then_detach_restores_the_list_witness :
  devices (checkNewDevice [pendaq_id] (Some pendaq_dev2)
             (attach_all [pendaq_id] [Some pendaq_dev] Registry_init))
  = [0; 1]
  /\ checkRemoveDevice (Some pendaq_dev2)
       (checkNewDevice [pendaq_id] (Some pendaq_dev2)
          (attach_all [pendaq_id] [Some pendaq_dev] Registry_init))
     = {| heap := [fresh (PenDaq_init pendaq_dev);
                   updated (set_isConnected false)
                     (traced [Emit EvDisconnected]
                        (fresh (PenDaq_init pendaq_dev2)))];
          devices := [0];
          ee := [Connected (Some 0); Connected (Some 1); Disconnected None] |}.
Proof.
  apply (attach_then_detach_restores_the_list [pendaq_id] pendaq_dev2
           (attach_all [pendaq_id] [Some pendaq_dev] Registry_init));
    [ repeat constructor | reflexivity | discriminate | discriminate
    | reflexivity ].
Defined.

(** The two ways [checkRemoveDevice] can go. *)
Lemma checkRemoveDevice_cases (dev : option UsbDevice) (r : Registry) :
  checkRemoveDevice dev r = r
  \/ exists i h,
       devices r !! i = Some h
       /\ matchDeviceAddresses (device_of (heap r) h) dev = true
       /\ checkRemoveDevice dev r
          = {| heap := alter (fun w => snd (_onDisconnect w)) h (heap r);
               devices := delete i (devices r);
               ee := ee r ++ [Disconnected (devices r !! S i)] |}.
Proof.
  destruct dev as [d|]; [|by left].
  destruct (deviceDescriptor d) as [desc|] eqn:Hdesc;
    [|left; unfold checkRemoveDevice; by rewrite Hdesc].
  destruct (first_index
              (fun h => matchDeviceAddresses (device_of (heap r) h) (Some d))
              (devices r) 0) as [i|] eqn:Hi.
  - right. destruct (first_index_spec _ _ _ _ Hi) as (_ & h & Hh & Hm).
    rewrite Nat.sub_0_r in Hh. exists i, h. split; [done|]. split; [done|].
    apply checkRemoveDevice_found; [by rewrite Hdesc|done..].
  - left. unfold checkRemoveDevice. by rewrite Hdesc, Hi.
Qed.

(** The two ways [checkNewDevice] can go. *)
Lemma checkNewDevice_cases usbIDs (dev : option UsbDevice) (r : Registry) :
  checkNewDevice usbIDs dev r = r
  \/ exists d,
       dev = Some d
       /\ allowed usbIDs dev = true
       /\ checkNewDevice usbIDs dev r
          = {| heap := heap r ++ [fresh (PenDaq_init d)];
               devices := devices r ++ [length (heap r)];
               ee := ee r ++ [Connected (Some (length (heap r)))] |}.
Proof.
  destruct dev as [d|]; [|by left]. unfold checkNewDevice, allowed.
  destruct (deviceDescriptor d) as [desc|] eqn:Hdesc; [|by left].
  destruct (existsb _ usbIDs); [|by left]. cbn [negb].
  destruct (existsb _ (devices r)); [by left|]. cbn [negb].
  right. exists d. unfold new_PenDaq. by rewrite Hdesc.
Qed.

Lemma elem_of_delete_other {A} (l : list A) i x y :
  x ∈ l -> l !! i = Some y -> x <> y -> x ∈ delete i l.
Proof.
  intros Hx Hy Hne. apply list_elem_of_lookup in Hx as [j Hj].
  apply list_elem_of_lookup.
  destruct (decide (j < i)) as [Hlt|Hge].
  - exists j. by rewrite list_lookup_delete_lt.
  - assert (j <> i) by (intros ->; congruence).
    exists (j - 1). rewrite list_lookup_delete_ge by lia.
    by replace (S (j - 1)) with j by lia.
Qed.

Lemma NoDup_delete_gone {A} (l : list A) i y :
  NoDup l -> l !! i = Some y -> y ∉ delete i l.
Proof.
  intros Hnd Hy Hin. apply list_elem_of_lookup in Hin as [j Hj].
  rewrite list_lookup_delete in Hj. case_decide.
  - pose proof (NoDup_lookup l i j y Hnd Hy Hj). lia.
  - pose proof (NoDup_lookup l i (S j) y Hnd Hy Hj). lia.
Qed.

Lemma NoDup_delete {A} (l : list A) i : NoDup l -> NoDup (delete i l).
Proof. intros H. exact (sublist_NoDup _ _ H (sublist_delete l i)). Qed.

Lemma device_of_alter (f : World -> World) k hp h :
  (forall w, _device (self (f w)) = _device (self w)) ->
  device_of (alter f k hp) h = device_of hp h.
Proof.
  intros Hf. unfold device_of. destruct (decide (k = h)) as [->|Hne].
  - rewrite list_lookup_alter_eq. destruct (hp !! h); simpl; [|done].
    by rewrite Hf.
  - by rewrite list_lookup_alter_ne.
Qed.

Lemma notify_device_of {T : Transport} usbIDs n r h d :
  device_of (heap r) h = Some d ->
  device_of (heap (notify usbIDs n r)) h = Some d.
Proof.
  intros Hd. destruct n as [dev|dev|h0 o]; simpl.
  - destruct (checkNewDevice_cases usbIDs dev r) as [->|(d' & _ & _ & ->)];
      [done|]. simpl. rewrite device_of_app_l; [done|].
    unfold device_of in Hd. destruct (heap r !! h) eqn:E; [|done].
    by apply lookup_lt_Some in E.
  - destruct (checkRemoveDevice_cases dev r) as [->|(i & hi & _ & _ & ->)];
      [done|]. simpl. by rewrite device_of_alter.
  - rewrite device_of_alter; [done|]. intros w. apply run_op_device.
Qed.

Lemma notify_keeps_zero {T : Transport} usbIDs n r h d :
  h ∈ devices r -> device_of (heap r) h = Some d ->
  busNumber d = 0%Z \/ deviceAddress d = 0%Z ->
  h ∈ devices (notify usbIDs n r).
Proof.
  intros Hin Hd Hz. destruct n as [dev|dev|h0 o]; simpl; [| |done].
  - destruct (checkNewDevice_cases usbIDs dev r) as [->|(d' & _ & _ & ->)];
      [done|]. simpl. apply elem_of_app. by left.
  - destruct (checkRemoveDevice_cases dev r) as [->|(i & hi & Hi & Hm & ->)];
      [done|]. simpl. apply (elem_of_delete_other _ i h hi); [done..|].
    intros ->. rewrite Hd, (match_zero d dev Hz) in Hm. done.
Qed.

(** X18. A tracked session whose device has bus number 0 or address 0 stays in
    [devices] through any run of attach and detach notifications and session
    operations: no detach notification can match it. *)
Theorem zero_address_session_is_never_removed {T : Transport}
    (usbIDs : list Descriptor) (ns : list Notice) (r : Registry)
    (h : nat) (d : UsbDevice) :
  h ∈ devices r ->
  device_of (heap r) h = Some d ->
  busNumber d = 0%Z \/ deviceAddress d = 0%Z ->
  h ∈ devices (run_notices usbIDs ns r).
Proof.
  revert r. induction ns as [|n ns IH]; intros r Hin Hd Hz; [done|].
  simpl. apply IH; [|by apply notify_device_of|done].
  by eapply notify_keeps_zero.
Qed.

Lemma zero_address_session_is_never_removed_witness :
  0 ∈ devices (run_notices (T := ideal_usb) [pendaq_id]
                 [Detach (Some pendaq_bus0); Attach (Some pendaq_dev);
                  Detach (Some pendaq_bus0)]
                 (attach_all [pendaq_id] [Some pendaq_bus0] Registry_init)).
Proof.
  apply (zero_address_session_is_never_removed (T := ideal_usb) [pendaq_id]
           [Detach (Some pendaq_bus0); Attach (Some pendaq_dev);
            Detach (Some pendaq_bus0)]
           (attach_all [pendaq_id] [Some pendaq_bus0] Registry_init)
           0 pendaq_bus0);
    [ by left | reflexivity | by left ].
Defined.

Lemma run_op_connected {T : Transport} (o : Op) (w : World) :
  o <> OpDisconnect ->
  _isConnected (self (snd (run_op o w))) = _isConnected (self w).
Proof. intros Ho. rewrite run_op_isConnected. by destruct o. Qed.

Lemma well_tracked_init usbIDs : well_tracked usbIDs Registry_init.
Proof.
  split; [constructor|]. split.
  - intros h Hh. by apply elem_of_nil in Hh.
  - intros h p Hs. done.
Qed.

Lemma session_Some_lt r h p : session r h = Some p -> h < length (heap r).
Proof.
  unfold session. destruct (heap r !! h) eqn:E; [|done].
  intros _. by apply lookup_lt_Some in E.
Qed.

Lemma attach_well_tracked usbIDs dev r :
  well_tracked usbIDs r -> well_tracked usbIDs (checkNewDevice usbIDs dev r).
Proof.
  intros (Hnd & Htr & Hun).
  destruct (checkNewDevice_cases usbIDs dev r) as [->|(d & -> & Hal & ->)];
    [done|].
  assert (Hlt : forall h, h ∈ devices r -> h < length (heap r)).
  { intros h Hh. destruct (Htr h Hh) as (p & Hp & _).
    by apply session_Some_lt in Hp. }
  split; [|split]; cbn [heap devices ee].
  - apply NoDup_app. split; [done|]. split; [|apply NoDup_singleton].
    intros h Hh Hn. apply list_elem_of_singleton in Hn.
    apply Hlt in Hh. lia.
  - intros h Hh. apply elem_of_app in Hh as [Hh|Hh].
    + destruct (Htr h Hh) as (p & Hp & Hc & Ha). exists p.
      split; [|done]. unfold session in *. cbn [heap].
      by rewrite lookup_app_l by (by apply Hlt).
    + apply list_elem_of_singleton in Hh as ->.
      exists (PenDaq_init d). split; [|done].
      unfold session. cbn [heap]. rewrite lookup_app_r by lia.
      by rewrite Nat.sub_diag.
  - intros h p Hs Hn. rewrite elem_of_app in Hn.
    apply (Hun h p); [|tauto].
    unfold session in *. cbn [heap] in Hs.
    destruct (decide (h < length (heap r))) as [Hl|Hl].
    + by rewrite lookup_app_l in Hs.
    + destruct (decide (h = length (heap r))) as [->|Hne].
      * destruct Hn. right. by apply list_elem_of_singleton.
      * rewrite lookup_ge_None_2 in Hs; [done|].
        rewrite length_app. simpl. lia.
Qed.

Lemma detach_well_tracked usbIDs dev r :
  well_tracked usbIDs r -> well_tracked usbIDs (checkRemoveDevice dev r).
Proof.
  intros (Hnd & Htr & Hun).
  destruct (checkRemoveDevice_cases dev r) as [->|(i & hi & Hi & _ & ->)];
    [done|].
  split; [|split]; cbn [heap devices ee].
  - by apply NoDup_delete.
  - intros h Hh.
    assert (h <> hi).
    { intros ->. by apply (NoDup_delete_gone (devices r) i hi). }
    apply list_elem_of_delete_inv in Hh.
    destruct (Htr h Hh) as (p & Hp & Hc & Ha). exists p.
    split; [|done]. unfold session in *. cbn [heap].
    by rewrite list_lookup_alter_ne.
  - intros h p Hs Hn. unfold session in *. cbn [heap] in Hs.
    destruct (decide (hi = h)) as [->|Hne].
    + rewrite list_lookup_alter_eq in Hs.
      destruct (heap r !! h); [|done]. by injection Hs as <-.
    + rewrite list_lookup_alter_ne in Hs by done.
      apply (Hun h p Hs). intros Hh. apply Hn.
      by apply (elem_of_delete_other _ i h hi).
Qed.

Lemma use_well_tracked {T : Transport} usbIDs h0 o r :
  o <> OpDisconnect ->
  well_tracked usbIDs r -> well_tracked usbIDs (notify usbIDs (Use h0 o) r).
Proof.
  intros Ho (Hnd & Htr & Hun).
  assert (Hs : forall h,
             session (notify usbIDs (Use h0 o) r) h
             = (if decide (h0 = h)
                then (fun w => self (snd (run_op o w))) <$> heap r !! h
                else session r h)).
  { intros h. unfold session. cbn [notify heap]. case_decide as E.
    - subst. rewrite list_lookup_alter_eq. by destruct (heap r !! h).
    - by rewrite list_lookup_alter_ne. }
  split; [done|]. split.
  - intros h Hh. destruct (Htr h Hh) as (p & Hp & Hc & Ha).
    rewrite Hs. case_decide; [|by exists p].
    unfold session in Hp. destruct (heap r !! h) as [w|]; [|done].
    injection Hp as <-. eexists. split; [reflexivity|].
    by rewrite run_op_connected, run_op_device.
  - intros h p Hp Hn. rewrite Hs in Hp. case_decide; [|by apply (Hun h p)].
    destruct (heap r !! h) as [w|] eqn:E; [|done]. injection Hp as <-.
    rewrite run_op_connected by done.
    apply (Hun h (self w)); [|done]. unfold session. by rewrite E.
Qed.

Lemma run_notices_well_tracked {T : Transport} usbIDs ns : forall r,
  forallb external ns = true ->
  well_tracked usbIDs r -> well_tracked usbIDs (run_notices usbIDs ns r).
Proof.
  induction ns as [|n ns IH]; intros r Hex Hr; [done|].
  simpl in Hex. apply andb_true_iff in Hex as [Hn Hns].
  simpl. apply IH; [done|].
  destruct n as [dev|dev|h0 o]; simpl.
  - by apply attach_well_tracked.
  - by apply detach_well_tracked.
  - apply use_well_tracked; [|done]. intros ->. done.
Qed.

(** X19. After any run of attach and detach notifications and of operations on
    the sessions, short of a user calling [_onDisconnect], the tracked
    handles are distinct, every tracked session is connected and bound to an
    allowed device, and every session that is no longer tracked is
    disconnected. *)
Theorem tracked_sessions_are_the_connected_ones {T : Transport}
    (usbIDs : list Descriptor) (ns : list Notice) :
  forallb external ns = true ->
  well_tracked usbIDs (run_notices usbIDs ns Registry_init).
Proof.
  intros Hex. apply run_notices_well_tracked; [done|].
  apply well_tracked_init.
Qed.

Lemma tracked_sessions_are_the_connected_ones_witness :
  well_tracked [pendaq_id]
    (run_notices (T := ideal_usb) [pendaq_id]
       [Attach (Some pendaq_dev); Use 0 (OpOpen NotAFunction);
        Attach (Some pendaq_dev2); Detach (Some pendaq_dev);
        Use 0 (OpStart NotAFunction)]
       Registry_init).
Proof.
  apply (tracked_sessions_are_the_connected_ones (T := ideal_usb)
           [pendaq_id]
           [Attach (Some pendaq_dev); Use 0 (OpOpen NotAFunction);
            Attach (Some pendaq_dev2); Detach (Some pendaq_dev);
            Use 0 (OpStart NotAFunction)]).
  reflexivity.
Defined.

(** X20. Whenever a detach notification makes the registry emit
    ['disconnected'] with a session, that session is in [devices] after the
    removal. *)
Theorem disconnected_event_names_a_tracked_session
    (dev : option UsbDevice) (r : Registry) (h : nat) :
  ee (checkRemoveDevice dev r) = ee r ++ [Disconnected (Some h)] ->
  h ∈ devices (checkRemoveDevice dev r).
Proof.
  destruct (checkRemoveDevice_cases dev r) as [->|(i & hi & Hi & _ & ->)].
  - intros H. apply (f_equal length) in H. rewrite length_app in H.
    simpl in H. lia.
  - cbn [ee devices]. intros H. apply app_inv_head in H.
    injection H as H. apply (list_elem_of_lookup_2 _ i).
    by rewrite list_lookup_delete_ge.
Qed.

Lemma disconnected_event_names_a_tracked_session_witness :
  1 ∈ devices (checkRemoveDevice (Some pendaq_dev)
                 (attach_all [pendaq_id] [Some pendaq_dev; Some pendaq_dev2]
                    Registry_init)).
Proof.
  apply (disconnected_event_names_a_tracked_session (Some pendaq_dev)
           (attach_all [pendaq_id] [Some pendaq_dev; Some pendaq_dev2]
              Registry_init) 1).
  reflexivity.
Defined.

(* ================================================================== *)
(** ** The identifiers of [getAvailableDevices] and [getDevice] *)

Lemma pretty_N_go_no_dot x : forall s,
  has_dot s = false -> has_dot (pretty_N_go x s) = false.
Proof.
  induction (N.lt_wf_0 x) as [x _ IH]; intros s Hs.
  assert (x = 0 \/ 0 < x)%N as [->|Hx] by lia.
  - by rewrite pretty_N_go_0.
  - rewrite pretty_N_go_step by done. apply IH; [by apply N.div_lt|].
    simpl. rewrite Hs. unfold pretty_N_char. by repeat case_match.
Qed.

Lemma pretty_N_no_dot (x : N) : has_dot (pretty x) = false.
Proof.
  unfold pretty, pretty_N. case_decide; [done|]. by apply pretty_N_go_no_dot.
Qed.

Lemma pretty_Z_no_dot (z : Z) : has_dot (pretty z) = false.
Proof.
  destruct z as [|p|p]; [done| |].
  - apply (pretty_N_no_dot (Npos p)).
  - change (pretty (Zneg p)) with ("-" +:+ pretty (Npos p)). simpl.
    apply (pretty_N_no_dot (Npos p)).
Qed.

Lemma dot_split s1 : forall s2 t1 t2,
  has_dot s1 = false -> has_dot s2 = false ->
  s1 +:+ "." +:+ t1 = s2 +:+ "." +:+ t2 -> s1 = s2 /\ t1 = t2.
Proof.
  induction s1 as [|c s1 IH]; intros [|c' s2] t1 t2 H1 H2 E;
    simplify_eq/=; try done.
  apply orb_false_iff in H1 as [_ H1].
  apply orb_false_iff in H2 as [_ H2].
  match goal with
  | E' : _ +:+ _ = _ +:+ _ |- _ => by destruct (IH _ _ _ H1 H2 E') as [-> ->]
  end.
Qed.

Lemma device_id_inj d d' :
  device_id d = device_id d' ->
  busNumber d = busNumber d' /\ deviceAddress d = deviceAddress d'.
Proof.
  unfold device_id. intros E.
  apply dot_split in E as [Eb Ea]; try apply pretty_Z_no_dot.
  by apply (inj pretty) in Eb, Ea.
Qed.

Lemma device_id_not_empty d : String.eqb (device_id d) "" = false.
Proof.
  apply String.eqb_neq. unfold device_id. intros E.
  pose proof (f_equal has_dot E) as H. simpl in H.
  assert (D : forall s t, has_dot (s +:+ "." +:+ t) = true).
  { intros s t. induction s as [|c s IH]; simpl; [done|].
    rewrite IH. by rewrite orb_true_r. }
  by rewrite D in H.
Qed.

(** The loop of [getDevice]: the last listed session whose identifier is
    [id], or what [dev] held when none is. *)
Lemma getDevice_loop id hp l : forall acc,
  ((forall h d, h ∈ l -> device_of hp h = Some d -> device_id d <> id) /\
   fold_left
     (fun (dev : option nat) elm =>
        match device_of hp elm with
        | Some d => if String.eqb id (device_id d) then Some elm else dev
        | None => dev
        end) l acc = acc)
  \/ exists h d, h ∈ l /\ device_of hp h = Some d /\ device_id d = id
                 /\ fold_left
                      (fun (dev : option nat) elm =>
                         match device_of hp elm with
                         | Some d =>
                             if String.eqb id (device_id d) then Some elm
                             else dev
                         | None => dev
                         end) l acc = Some h.
Proof.
  induction l as [|x l IH]; intros acc.
  - left. split; [|done]. intros h d Hh. by apply elem_of_nil in Hh.
  - cbn [fold_left].
    destruct (device_of hp x) as [d|] eqn:Hx.
    + destruct (String.eqb_spec id (device_id d)) as [E|E].
      * right.
        destruct (IH (Some x)) as [[Hno Hf]|(h & d' & Hh & Hd & Hid & Hf)].
        -- exists x, d. split; [by left|]. done.
        -- exists h, d'. split; [by right|]. done.
      * destruct (IH acc) as [[Hno Hf]|(h & d' & Hh & Hd & Hid & Hf)].
        -- left. split; [|done]. intros h d' Hh Hd.
           apply elem_of_cons in Hh as [->|Hh]; [|by eapply Hno].
           rewrite Hx in Hd. injection Hd as <-. congruence.
        -- right. exists h, d'. split; [by right|]. done.
    + destruct (IH acc) as [[Hno Hf]|(h & d' & Hh & Hd & Hid & Hf)].
      * left. split; [|done]. intros h d' Hh Hd.
        apply elem_of_cons in Hh as [->|Hh]; [|by eapply Hno]. congruence.
      * right. exists h, d'. split; [by right|]. done.
Qed.

(** X21. The identifier of every tracked session is listed by
    [getAvailableDevices], and [getDevice] resolves it to a tracked session
    at the same bus number and address. *)
Theorem getDevice_resolves_every_listed_id
    (r : Registry) (h : nat) (d : UsbDevice) :
  h ∈ devices r ->
  device_of (heap r) h = Some d ->
  device_id d ∈ getAvailableDevices r
  /\ exists h' d',
       getDevice (device_id d) r = Some h'
       /\ h' ∈ devices r
       /\ device_of (heap r) h' = Some d'
       /\ busNumber d' = busNumber d
       /\ deviceAddress d' = deviceAddress d.
Proof.
  intros Hh Hd. split.
  - unfold getAvailableDevices. apply list_elem_of_omap.
    exists h. split; [done|]. by rewrite Hd.
  - unfold getDevice. rewrite device_id_not_empty.
    destruct (getDevice_loop (device_id d) (heap r) (devices r) None)
      as [[Hno _]|(h' & d' & Hh' & Hd' & Hid & Hf)].
    + by destruct (Hno h d Hh Hd).
    + exists h', d'. apply device_id_inj in Hid as [Hb Ha]. done.
Qed.

Lemma getDevice_resolves_every_listed_id_witness :
  device_id pendaq_dev2
    ∈ getAvailableDevices
        (attach_all [pendaq_id] [Some pendaq_dev; Some pendaq_dev2]
           Registry_init)
  /\ exists h' d',
       getDevice (device_id pendaq_dev2)
         (attach_all [pendaq_id] [Some pendaq_dev; Some pendaq_dev2]
            Registry_init) = Some h'
       /\ h' ∈ devices (attach_all [pendaq_id]
                          [Some pendaq_dev; Some pendaq_dev2] Registry_init)
       /\ device_of (heap (attach_all [pendaq_id]
                             [Some pendaq_dev; Some pendaq_dev2]
                             Registry_init)) h' = Some d'
       /\ busNumber d' = busNumber pendaq_dev2
       /\ deviceAddress d' = deviceAddress pendaq_dev2.
Proof.
  apply (getDevice_resolves_every_listed_id
           (attach_all [pendaq_id] [Some pendaq_dev; Some pendaq_dev2]
              Registry_init) 1 pendaq_dev2);
    [ right; left | reflexivity ].
Defined.

(** X22. [getDevice] returns [undefined] for every identifier that
    [getAvailableDevices] does not list. *)
Theorem getDevice_of_unlisted_id_is_undefined (r : Registry) (id : string) :
  id ∉ getAvailableDevices r ->
  getDevice id r = None.
Proof.
  intros Hid. unfold getDevice. destruct (String.eqb id ""); [done|].
  destruct (getDevice_loop id (heap r) (devices r) None)
    as [[_ Hf]|(h & d & Hh & Hd & E & _)]; [done|].
  destruct Hid. unfold getAvailableDevices. apply list_elem_of_omap.
  exists h. split; [done|]. by rewrite Hd, <- E.
Qed.

Lemma getDevice_of_unlisted_id_is_undefined_witness :
  getDevice "1.3" (attach_all [pendaq_id] [Some pendaq_dev] Registry_init)
  = None.
Proof.
  apply (getDevice_of_unlisted_id_is_undefined
           (attach_all [pendaq_id] [Some pendaq_dev] Registry_init) "1.3").
  vm_compute. intros H. apply list_elem_of_singleton in H. discriminate.
Defined.

(* ================================================================== *)

(** ** The earlier manager *)

Lemma matchVidPid_trans_r x y z :
  matchVidPid x y = true -> matchVidPid z x = matchVidPid z y.
Proof.
  destruct x as [x|], y as [y|]; try done. simpl.
  rewrite andb_true_iff, !Z.eqb_eq. intros [Hv Hp].
  destruct z as [z|]; [|done]. simpl. by rewrite Hv, Hp.
Qed.

Lemma manager_step usbIDs (d : UsbDevice) dev m :
  length (List.filter (fun d' => same_model d' d) (Manager.devices m)) <= 1 ->
  length (List.filter (fun d' => same_model d' d)
            (Manager.devices (Manager.checkNewDevice usbIDs dev m)))
  = (if allowed usbIDs dev
        && match dev with Some x => same_model x d | None => false end
     then 1
     else length (List.filter (fun d' => same_model d' d)
                    (Manager.devices m))).
Proof.
  intros Hle. unfold Manager.checkNewDevice, allowed.
  destruct dev as [x|]; [|done].
  destruct (deviceDescriptor x) as [desc|] eqn:Hdesc; [|done].
  destruct (existsb _ usbIDs); [|done]. cbn [andb].
  destruct (same_model x d) eqn:Hxd.
  - rewrite (existsb_pointwise _ (fun d' => same_model d' d)).
    2:{ intros d'. unfold same_model in *. rewrite <- Hdesc.
        by apply matchVidPid_trans_r. }
    destruct (existsb _ (Manager.devices m)) eqn:Hex; cbn [negb].
    + apply existsb_true_filter in Hex. lia.
    + apply existsb_false_filter in Hex. cbn [Manager.devices].
      rewrite List.filter_app, Hex. simpl. by rewrite Hxd.
  - destruct (existsb _ (Manager.devices m)); cbn [negb]; [done|].
    cbn [Manager.devices]. rewrite List.filter_app. simpl. rewrite Hxd.
    by rewrite app_nil_r.
Qed.

Lemma manager_attach_all usbIDs (d : UsbDevice) devs : forall m,
  length (List.filter (fun d' => same_model d' d) (Manager.devices m)) <= 1 ->
  length (List.filter (fun d' => same_model d' d)
            (Manager.devices (Manager.attach_all usbIDs devs m)))
  = (if existsb
          (fun dev => allowed usbIDs dev
                      && match dev with
                         | Some x => same_model x d
                         | None => false
                         end) devs
     then 1
     else length (List.filter (fun d' => same_model d' d)
                    (Manager.devices m))).
Proof.
  induction devs as [|dev devs IH]; intros m Hle; [done|].
  change (Manager.attach_all usbIDs (dev :: devs) m)
    with (Manager.attach_all usbIDs devs (Manager.checkNewDevice usbIDs dev m)).
  pose proof (manager_step usbIDs d dev m Hle) as Hs.
  rewrite IH by (rewrite Hs; case_match; lia).
  rewrite Hs. cbn [existsb]. by repeat case_match.
Qed.

(** X23. The earlier manager takes two devices for the same when their vendor
    and product match, wherever they are plugged: after any run of attach
    notifications with two such allowed devices it tracks one of that model,
    and with these two alone it tracks the first and has emitted one
    ['attach']. *)
Theorem earlier_manager_tracks_one_device_per_model
    (usbIDs : list Descriptor) (d1 d2 : UsbDevice)
    (pre mid post : list (option UsbDevice)) :
  allowed usbIDs (Some d1) = true ->
  same_model d2 d1 = true ->
  length (List.filter (fun d' => same_model d' d1)
            (Manager.devices
               (Manager.attach_all usbIDs
                  (pre ++ Some d1 :: mid ++ Some d2 :: post) Manager.init)))
  = 1
  /\ Manager.attach_all usbIDs [Some d1; Some d2] Manager.init
     = {| Manager.devices := [d1]; Manager.emitted := [Manager.EvAttach d1] |}.
Proof.
  intros Hal Hsame. split.
  - rewrite manager_attach_all by (simpl; lia).
    assert (Hself : same_model d1 d1 = true).
    { unfold same_model, allowed in *.
      destruct (deviceDescriptor d1); [|done]. simpl.
      by rewrite !Z.eqb_refl. }
    rewrite (existsb_app_true _ pre (Some d1)); [done|].
    by rewrite Hal, Hself.
  - unfold same_model in Hsame. unfold allowed in Hal.
    destruct (deviceDescriptor d1) as [desc1|] eqn:H1; [|done].
    destruct (deviceDescriptor d2) as [desc2|] eqn:H2; [|done].
    assert (S1 : Manager.checkNewDevice usbIDs (Some d1) Manager.init
                 = {| Manager.devices := [d1];
                      Manager.emitted := [Manager.EvAttach d1] |}).
    { unfold Manager.checkNewDevice. by rewrite H1, Hal. }
    unfold Manager.attach_all. cbn [fold_left]. rewrite S1.
    unfold Manager.checkNewDevice. rewrite H2.
    cbn [Manager.devices existsb]. rewrite H1.
    rewrite (matchVidPid_trans_r _ _ (Some desc1) Hsame).
    assert (E : matchVidPid (Some desc1) (Some desc1) = true)
      by (simpl; by rewrite !Z.eqb_refl).
    rewrite E. cbn [orb negb].
    destruct (existsb (fun id => matchVidPid (Some id) (Some desc2)) usbIDs);
      reflexivity.
Qed.

Lemma earlier_manager_tracks_one_device_per_model_witness :
  length (List.filter (fun d' => same_model d' pendaq_dev)
            (Manager.devices
               (Manager.attach_all [pendaq_id]
                  [Some pendaq_dev; Some pendaq_dev2] Manager.init)))
  = 1
  /\ Manager.attach_all [pendaq_id] [Some pendaq_dev; Some pendaq_dev2]
       Manager.init
     = {| Manager.devices := [pendaq_dev];
          Manager.emitted := [Manager.EvAttach pendaq_dev] |}.
Proof.
  apply (earlier_manager_tracks_one_device_per_model [pendaq_id]
           pendaq_dev pendaq_dev2 [] [] []);
    reflexivity.
Defined.

(** X24. In the earlier manager, attaching an allowed device that is new by
    model and by place and detaching it right after gives back the device
    list and emits ['attach'] and ['detach'] with the device; bus number 0
    and address 0 are places like any other. *)
Theorem earlier_manager_attach_then_detach
    (usbIDs : list Descriptor) (d : UsbDevice) (m : Manager.State) :
  allowed usbIDs (Some d) = true ->
  existsb (fun d' => same_model d' d) (Manager.devices m) = false ->
  existsb (fun d' => same_place d' d) (Manager.devices m) = false ->
  Manager.checkRemoveDevice (Some d)
    (Manager.checkNewDevice usbIDs (Some d) m)
  = {| Manager.devices := Manager.devices m;
       Manager.emitted :=
         Manager.emitted m ++ [Manager.EvAttach d; Manager.EvDetach d] |}.
Proof.
  intros Hal Hmodel Hplace.
  unfold Manager.checkNewDevice, Manager.checkRemoveDevice, allowed in *.
  destruct (deviceDescriptor d) as [desc|] eqn:Hdesc; [|done].
  rewrite Hal.
  unfold same_model in Hmodel. rewrite Hdesc in Hmodel. rewrite Hmodel.
  cbn [negb Manager.devices Manager.emitted].
  rewrite (first_index_app _ (Manager.devices m) d [] 0).
  - cbn [Nat.add]. rewrite (delete_middle (Manager.devices m) [] d).
    by rewrite app_nil_r, <- app_assoc.
  - exact Hplace.
  - by rewrite !Z.eqb_refl.
Qed.

Lemma earlier_manager_attach_then_detach_witness :
  Manager.checkRemoveDevice (Some pendaq_bus0)
    (Manager.checkNewDevice [pendaq_id] (Some pendaq_bus0) Manager.init)
  = {| Manager.devices := [];
       Manager.emitted :=
         [Manager.EvAttach pendaq_bus0; Manager.EvDetach pendaq_bus0] |}.
Proof.
  apply (earlier_manager_attach_then_detach [pendaq_id] pendaq_bus0
           Manager.init);
    reflexivity.
Defined.
